(** * form-js-playground: the state-driven behavior engine

    A shallow embedding of the pure core of the playground
    (behavior matrix completion and overlay, the matrix/bundle codec, the
    schema enricher, the field extractor and the read-only resolver) together
    with the properties the specification states about it.

    Modelling conventions.
    - A JavaScript object used as a dictionary ([BehaviorMatrixValue] and its
      rows) is the [gmap string _] of its own properties.  [Object.entries] /
      [Object.keys] / [Object.values] enumerate it through [map_to_list];
      every key occurs once in the enumeration, its order is the one of
      [map_to_list].
    - Such an object inherits from [Object.prototype], which is as the
      language defines it when a function is called.  Reading [o[k]] for a
      name [k] that is not an own key finds the inherited member when [k] is
      one of [OBJECT_PROTOTYPE_NAMES], and [undefined] otherwise ([member]);
      assigning [o[k] = v] creates or replaces the own property [k], except
      for [k = __proto__] when it is not an own key, where the inherited
      accessor takes the value ([assign]).
    - The run of a function that builds a matrix is a [Run].  [Returns m]:
      every read and write of the run found an own property or nothing, and
      the function returns [m].  [Throws]: such a run ends in a [TypeError].
      [Escapes]: the run takes an inherited member for a row or a cell, or
      assigns through the inherited accessor.  What the run goes on to do from
      there depends on, and can change, objects shared by the whole program
      ([Object.prototype] and the built-in functions): the embedding does not
      follow it further, and says nothing of what it returns.
    - [JSON.parse(JSON.stringify(x))] on a value of the declared shapes is the
      identity on the embedded value: the embedding has no object identity, so
      a deep copy and its original are the same term.
    - [!!x] on an optional boolean is [truthy]; [x || d] on an optional object
      is [default d x].
    - Values have their declared TypeScript shapes: a cell, a row or a schema
      node is an object, a component array holds nodes, and an optional member
      is an [option].
    - A [string] holds the UTF-8 encoding of the JavaScript string. *)

From stdpp Require Import gmap strings list fin_maps.

Open Scope string_scope.
Open Scope list_scope.

(** ** core/types.ts *)

Inductive ActionContext := view | create | update.

Inductive CellMode := hidden | readonly | editable.

#[global] Instance ActionContext_eq_dec : EqDecision ActionContext.
Proof. solve_decision. Defined.

#[global] Instance CellMode_eq_dec : EqDecision CellMode.
Proof. solve_decision. Defined.

(** [visible?: boolean] and [required?: boolean] are optional members;
    [row_required] is the member [required] of a row. *)
Record TaskFieldBehavior := mkRow {
  field_name : string;
  action_context : ActionContext;
  visible : option bool;
  row_required : option bool
}.

Record BehaviorBundle := mkBundle {
  state : string;
  action : ActionContext;
  rows : list TaskFieldBehavior
}.

Record FieldCell := mkCell {
  mode : CellMode;
  required : bool
}.

#[global] Instance FieldCell_eq_dec : EqDecision FieldCell.
Proof. solve_decision. Defined.

#[global] Instance TaskFieldBehavior_eq_dec : EqDecision TaskFieldBehavior.
Proof. solve_decision. Defined.

(** [matrix[fieldKey][state] = { mode, required }] *)
Abbreviation StateRow := (gmap string FieldCell).
Abbreviation BehaviorMatrixValue := (gmap string (gmap string FieldCell)).

(** [!!x] for an optional boolean member. *)
Definition truthy (x : option bool) : bool := default false x.


(** ** JavaScript objects as dictionaries *)

(** The names of the members every object inherits from [Object.prototype]. *)
Definition OBJECT_PROTOTYPE_NAMES : list string :=
  [ "__proto__"; "constructor"; "hasOwnProperty"; "isPrototypeOf";
    "propertyIsEnumerable"; "toLocaleString"; "toString"; "valueOf";
    "__defineGetter__"; "__defineSetter__"; "__lookupGetter__";
    "__lookupSetter__" ].

Definition inherited (k : string) : bool :=
  bool_decide (k ∈ OBJECT_PROTOTYPE_NAMES).

(** A name that no object inherits. *)
Definition ordinary (k : string) : Prop := k ∉ OBJECT_PROTOTYPE_NAMES.

#[global] Instance ordinary_dec k : Decision (ordinary k).
Proof. unfold ordinary. apply _. Defined.

(** [Object.keys(o)] *)
Definition keys {A} (o : gmap string A) : list string := (map_to_list o).*1.

(** What reading [o[k]] finds: an own property, a member inherited from
    [Object.prototype] (a built-in function, or [Object.prototype] itself for
    [__proto__]; it is truthy and has no [mode] and no [required]), or
    [undefined]. *)
Inductive Member (A : Type) : Type :=
  | Own (a : A)
  | Builtin
  | Missing.
Arguments Own {A} a.
Arguments Builtin {A}.
Arguments Missing {A}.

Definition member {A} (o : gmap string A) (k : string) : Member A :=
  match o !! k with
  | Some a => Own a
  | None => if inherited k then Builtin else Missing
  end.

(** Where a run leaves the own properties: [o[fieldKey] || {}] is the member
    inherited under the name of the field key and is taken for the row;
    [row[state]] is the member inherited under the name of the state and is
    taken for the cell; or [row.__proto__ = cell] assigns through the
    inherited accessor. *)
Inductive Escape : Type :=
  | InheritedRow (fieldKey : string)
  | InheritedCell (state : string)
  | ProtoAssign.

(** How the run of a function ends: it returns a value, having read and
    written own properties only; it throws a [TypeError]; or it takes an
    inherited member for a row or a cell, or assigns through the inherited
    accessor, and is not followed further. *)
Inductive Run (A : Type) : Type :=
  | Returns (a : A)
  | Throws
  | Escapes (e : Escape).
Arguments Returns {A} a.
Arguments Throws {A}.
Arguments Escapes {A} e.

#[global] Instance Run_bind : MBind Run := λ A B f x,
  match x with
  | Returns a => f a
  | Throws => Throws
  | Escapes e => Escapes e
  end.

(** A [for ... of] loop over [l] whose body can end the run. *)
Fixpoint forEach {A B} (body : A → B → Run A) (a : A) (l : list B) : Run A :=
  match l with
  | [] => Returns a
  | b :: l' => a' ← body a b; forEach body a' l'
  end.

(** [o[k] = v] on a dictionary object. *)
Definition assign {A} (o : gmap string A) (k : string) (v : A) : Run (gmap string A) :=
  match o !! k with
  | Some _ => Returns (<[k := v]> o)
  | None => if bool_decide (k = "__proto__") then Escapes ProtoAssign
            else Returns (<[k := v]> o)
  end.

(** Reading [o[k]] finds an own property or nothing. *)
Definition plain {A} (o : gmap string A) (k : string) : Prop :=
  is_Some (o !! k) ∨ ordinary k.

(** Assigning [o[k] = v] creates or replaces an own property. *)
Definition assignable {A} (o : gmap string A) (k : string) : Prop :=
  is_Some (o !! k) ∨ k ≠ "__proto__".

(** The own cell of a matrix at a field key and a state. *)
Definition cellAt (matrix : BehaviorMatrixValue) (f s : string) : option FieldCell :=
  matrix !! f ≫= (.!! s).

(** No field key and no state of the matrix is the name of a member of
    [Object.prototype]. *)
Definition ordinaryNames (matrix : BehaviorMatrixValue) : Prop :=
  Forall (λ e, ordinary e.1 ∧ Forall ordinary (keys e.2)) (map_to_list matrix).

#[global] Instance ordinaryNames_dec matrix : Decision (ordinaryNames matrix).
Proof. unfold ordinaryNames. apply _. Defined.

(** [row?.[s]?.mode === 'editable']: an inherited member has no [mode]. *)
Definition editableAt (s : string) (row : StateRow) : bool :=
  match row !! s with
  | Some c => bool_decide (mode c = editable)
  | None => false
  end.

(** ** components/BehaviorMatrix.tsx: completion and overlay *)

Module Matrix.

Definition DEFAULT_CELL : FieldCell := {| mode := hidden; required := false |}.

(** [row[st] = row[st] || { ...DEFAULT_CELL }] *)
Definition ensureCell (row : StateRow) (st : string) : Run StateRow :=
  match member row st with
  | Own c => Returns (<[st := c]> row)
  | Builtin => Escapes (InheritedCell st)
  | Missing => Returns (<[st := DEFAULT_CELL]> row)
  end.

(** The inner loop of [ensureAllCells]. *)
Definition ensureStates (states : list string) (row : StateRow) : Run StateRow :=
  forEach ensureCell row states.

(** [out[fk] = out[fk] || {}], then the inner loop on [out[fk]]. *)
Definition ensureField (states : list string) (out : BehaviorMatrixValue)
    (fk : string) : Run BehaviorMatrixValue :=
  match member out fk with
  | Own row => row' ← ensureStates states row; Returns (<[fk := row']> out)
  | Builtin => Escapes (InheritedRow fk)
  | Missing => row' ← ensureStates states ∅; Returns (<[fk := row']> out)
  end.

Definition ensureAllCells (matrix : BehaviorMatrixValue)
    (fieldKeys states : list string) : Run BehaviorMatrixValue :=
  forEach (ensureField states) matrix fieldKeys.

(** The inner loop of [overlayMatrixSourceWins]:
    [for (const st of Object.keys(src)) row[st] = src[st]]. *)
Definition overlayRow (src row : StateRow) : Run StateRow :=
  forEach (λ r e, assign r e.1 e.2) row (map_to_list src).

(** [out[fk] = out[fk] || {}], then the inner loop on [out[fk]]. *)
Definition overlayField (out : BehaviorMatrixValue) (e : string * StateRow)
    : Run BehaviorMatrixValue :=
  match member out e.1 with
  | Own row => row' ← overlayRow e.2 row; Returns (<[e.1 := row']> out)
  | Builtin => Escapes (InheritedRow e.1)
  | Missing => row' ← overlayRow e.2 ∅; Returns (<[e.1 := row']> out)
  end.

Definition overlayMatrixSourceWins (target source : BehaviorMatrixValue)
    : Run BehaviorMatrixValue :=
  forEach overlayField target (map_to_list source).

End Matrix.

(** ** core/behaviors.ts: the matrix/bundle codec *)

Module Codec.

(** The body of the inner loop of [bundlesFromMatrix]: the row pushed for a
    present cell. *)
Definition rowOfCell (fieldKey : string) (cell : FieldCell) : TaskFieldBehavior :=
  let visible := bool_decide (mode cell ≠ hidden) in
  let isEditable := bool_decide (mode cell = editable) in
  let required := required cell && isEditable in
  let action_context := if isEditable then update else view in
  {| field_name := fieldKey;
     action_context := action_context;
     visible := Some visible;
     row_required := Some required |}.

(** The row the same body pushes when [byState?.[state]] is an inherited
    member: [cell.mode] and [cell.required] are [undefined], so the row is
    visible, not editable and not required. *)
Definition rowOfBuiltin (fieldKey : string) : TaskFieldBehavior :=
  {| field_name := fieldKey;
     action_context := view;
     visible := Some true;
     row_required := Some false |}.

(** One iteration of [for (const [fieldKey, byState] of Object.entries(matrix))]
    on the loop state [(rows, anyEditable)]. *)
Definition scanField (state : string)
    (acc : list TaskFieldBehavior * bool) (e : string * StateRow)
    : list TaskFieldBehavior * bool :=
  match member e.2 state with
  | Missing => acc                                  (* if (!cell) continue *)
  | Own cell =>
      (acc.1 ++ [rowOfCell e.1 cell],
       if bool_decide (mode cell = editable) then true else acc.2)
  | Builtin => (acc.1 ++ [rowOfBuiltin e.1], acc.2)
  end.

Definition bundleOfState (matrix : BehaviorMatrixValue) (state : string)
    : BehaviorBundle :=
  let r := foldl (scanField state) ([], false) (map_to_list matrix) in
  {| state := state;
     action := if r.2 then update else view;
     rows := r.1 |}.

Definition bundlesFromMatrix (matrix : BehaviorMatrixValue)
    (allStates : list string) : list BehaviorBundle :=
  foldl (λ bundles state, bundles ++ [bundleOfState matrix state]) [] allStates.

(** The cell a row denotes ([matrixFromBundles], and [toRule] of the
    enricher, which repeats it). *)
Definition cellOfRow (row : TaskFieldBehavior) : FieldCell :=
  let mode :=
    if bool_decide (visible row = Some false) then hidden
    else if bool_decide (action_context row = update ∨ action_context row = create)
         then editable
         else readonly in
  let required :=
    if bool_decide (mode = editable) then truthy (row_required row) else false in
  {| mode := mode; required := required |}.

(** [m[key] = m[key] || {}; m[key][b.state] = { mode, required }] *)
Definition putRow (st : string) (m : BehaviorMatrixValue)
    (row : TaskFieldBehavior) : Run BehaviorMatrixValue :=
  let key := field_name row in
  match member m key with
  | Own r => r' ← assign r st (cellOfRow row); Returns (<[key := r']> m)
  | Builtin => Escapes (InheritedRow key)
  | Missing => r' ← assign ∅ st (cellOfRow row); Returns (<[key := r']> m)
  end.

Definition matrixFromBundles (bundles : list BehaviorBundle)
    : Run BehaviorMatrixValue :=
  forEach (λ m b, forEach (putRow (state b)) m (rows b)) ∅ bundles.

End Codec.

(** ** The form-js schema tree

    The declared shape of the schema: a root [{type, components}] and nodes
    with the optional members [key], [type], [label], [text], [disabled],
    [validate: {required?}] and [components].  An absent member is [None];
    string members hold strings. *)

(** [v_required] is the member [required] of a [validate] object. *)
Record Validate := mkValidate {
  v_required : option bool
}.

#[local] Unset Elimination Schemes.
Inductive Comp := mkComp {
  key : option string;
  type : option string;
  label : option string;
  text : option string;
  disabled : option bool;
  validate : option Validate;
  components : option (list Comp)
}.
#[local] Set Elimination Schemes.

(** Structural induction on a schema tree, with the induction hypothesis
    for every child of a container. *)
Section Comp_tree_ind.
Variable P : Comp → Prop.
Hypothesis Hnode : ∀ k t l x d v ocs,
  match ocs with Some cs => Forall P cs | None => True end →
  P (mkComp k t l x d v ocs).

Fixpoint Comp_tree_ind (n : Comp) : P n :=
  match n with
  | mkComp k t l x d v ocs =>
      Hnode k t l x d v ocs
        match ocs with
        | Some cs =>
            (fix children (cs : list Comp) : Forall P cs :=
               match cs with
               | [] => Forall_nil_2 P
               | c :: cs' => Forall_cons_2 P c cs' (Comp_tree_ind c) (children cs')
               end) cs
        | None => I
        end
  end.
End Comp_tree_ind.

Record FormSchema := mkSchema {
  schema_type : option string;
  schema_components : option (list Comp)
}.

(** [k && typeof k === 'string'], also the truthiness test [key ? .. : ..]:
    the key when it is a non-empty string. *)
Definition truthyKey (k : option string) : option string :=
  match k with
  | Some s => if bool_decide (s = "") then None else Some s
  | None => None
  end.

(** ** core/schema.ts: the field extractor *)

Module FieldMeta.
Record t := mk {
  key : string;
  label : string;
  type : option string
}.
End FieldMeta.


Module Schema.

(** The white space and line terminators [String.prototype.trim] strips, as
    UTF-8 sequences: one byte for U+0009..U+000D and U+0020, two for U+00A0,
    three for U+1680, U+2000..U+200A, U+2028, U+2029, U+202F, U+205F, U+3000
    and U+FEFF. *)
Definition byteIs (a : Ascii.ascii) (n : N) : bool :=
  N.eqb (Ascii.N_of_ascii a) n.

Definition space2 (a b : Ascii.ascii) : bool :=
  byteIs a 194 && byteIs b 160.

Definition space3 (a b c : Ascii.ascii) : bool :=
  (byteIs a 225 && byteIs b 154 && byteIs c 128)
  || (byteIs a 226 && byteIs b 128
      && (N.leb 128 (Ascii.N_of_ascii c) && N.leb (Ascii.N_of_ascii c) 138
          || byteIs c 168 || byteIs c 169 || byteIs c 175))
  || (byteIs a 226 && byteIs b 129 && byteIs c 159)
  || (byteIs a 227 && byteIs b 128 && byteIs c 128)
  || (byteIs a 239 && byteIs b 187 && byteIs c 191).

Fixpoint trimStart (s : string) : string :=
  match s with
  | String a s1 =>
      if Ascii.is_space a then trimStart s1
      else
        match s1 with
        | String b s2 =>
            if space2 a b then trimStart s2
            else
              match s2 with
              | String c s3 => if space3 a b c then trimStart s3 else s
              | EmptyString => s
              end
        | EmptyString => s
        end
  | EmptyString => EmptyString
  end.

(** The string without its longest suffix of white space: it is cut at the
    first position from which only white space follows. *)
Fixpoint trimEnd (s : string) : string :=
  match s with
  | String a s' =>
      if bool_decide (trimStart s = EmptyString) then EmptyString
      else String a (trimEnd s')
  | EmptyString => EmptyString
  end.

(** [String.prototype.trim] *)
Definition trim (s : string) : string := trimEnd (trimStart s).


(** [typeof x === 'string' && x.trim()], as the string it yields when
    truthy. *)
Definition trimmed (x : option string) : option string :=
  truthyKey (trim <$> x).

(** [c.type === 'text' || c.type === 'button'] *)
Definition isDisplay (c : Comp) : bool :=
  bool_decide (type c = Some "text" ∨ type c = Some "button").

Definition fieldMeta (c : Comp) (k : string) : FieldMeta.t :=
  let label :=
    match trimmed (label c) with
    | Some l => l
    | None => match trimmed (text c) with
              | Some t => t
              | None => k
              end
    end in
  FieldMeta.mk k label (type c).

(** The body of the loop of [extractFields] for one component; [acc] is
    the array the recursion pushes to. *)
Fixpoint extractNode (c : Comp) (acc : list FieldMeta.t) : list FieldMeta.t :=
  let children (acc : list FieldMeta.t) :=
    match components c with               (* Array.isArray(c.components) *)
    | Some cs =>
        (fix loop (cs : list Comp) (acc : list FieldMeta.t) :=
           match cs with
           | [] => acc
           | c' :: cs' => loop cs' (extractNode c' acc)
           end) cs acc
    | None => acc
    end in
  if isDisplay c then children acc
  else
    let acc' :=
      match truthyKey (key c) with
      | Some k => acc ++ [fieldMeta c k]
      | None => acc
      end in
    children acc'.

Definition extractFields (components : list Comp) (acc : list FieldMeta.t)
    : list FieldMeta.t :=
  foldl (λ acc c, extractNode c acc) acc components.

End Schema.

(** ** core/enrich.ts: the schema enricher *)

Module Enrich.

Definition toRule (row : TaskFieldBehavior) : FieldCell :=
  let hidden_ := bool_decide (visible row = Some false) in
  let mode :=
    if hidden_ then hidden
    else if bool_decide (action_context row = update ∨ action_context row = create)
         then editable
         else readonly in
  let required :=
    if bool_decide (mode = editable) then truthy (row_required row) else false in
  {| mode := mode; required := required |}.

(** [for (const r of bundle.rows) rules.set(r.field_name, toRule(r))] *)
Definition rulesOf (rows : list TaskFieldBehavior) : gmap string FieldCell :=
  foldl (λ rules r, <[field_name r := toRule r]> rules) ∅ rows.

(** [key ? rules.get(key) : undefined] *)
Definition ruleFor (rules : gmap string FieldCell) (n : Comp) : option FieldCell :=
  truthyKey (key n) ≫= (rules !!.).

Definition setComponents (n : Comp) (cs : option (list Comp)) : Comp :=
  mkComp (key n) (type n) (label n) (text n) (disabled n) (validate n) cs.

(** The [if (key && rule) { ... }] block on the copy [nn]. *)
Definition applyFlags (rule : option FieldCell) (nn : Comp) : Comp :=
  match rule with
  | Some r =>
      match mode r with
      | readonly =>
          mkComp (key nn) (type nn) (label nn) (text nn) (Some true)
            (match validate nn with
             | Some v => Some {| v_required := Some false |}
             | None => None
             end)
            (components nn)
      | editable =>
          mkComp (key nn) (type nn) (label nn) (text nn) (Some false)
            (Some {| v_required := Some (required r) |})
            (components nn)
      | hidden => nn
      end
  | None => nn
  end.

(** The body of the loop of [transform] for one node: [None] is the
    [continue] of a hidden node, [Some nn] the node pushed to [out]. *)
Fixpoint transformNode (rules : gmap string FieldCell) (n : Comp) : option Comp :=
  let rule := ruleFor rules n in
  if bool_decide (mode <$> rule = Some hidden) then None
  else
    let cs' :=
      match components n with             (* Array.isArray(nn.components) *)
      | Some cs =>
          Some ((fix loop (cs : list Comp) : list Comp :=
                   match cs with
                   | [] => []
                   | c :: cs' =>
                       match transformNode rules c with
                       | Some c' => c' :: loop cs'
                       | None => loop cs'
                       end
                   end) cs)
      | None => None
      end in
    Some (applyFlags rule (setComponents n cs')).

Definition transform (rules : gmap string FieldCell) (nodes : list Comp)
    : list Comp :=
  omap (transformNode rules) nodes.

Definition enrichFormSchemaForState (schema : FormSchema)
    (bundle : BehaviorBundle) : FormSchema :=
  let rules := rulesOf (rows bundle) in
  {| schema_type := schema_type schema;
     schema_components :=
       Some (transform rules (default [] (schema_components schema))) |}.

End Enrich.

(** ** App.tsx: the read-only flag of the viewer *)

Module Resolver.

(** The [readOnly] memo: [bundles.find(x => x.state === formState)],
    [Object.values(matrix).some(..)], and the final disjunction, where
    [b?.action === 'view'] is false when no bundle is found. *)
Definition readOnly (bundles : list BehaviorBundle)
    (matrix : BehaviorMatrixValue) (formState : string) : bool :=
  let b := find (λ x, bool_decide (state x = formState)) bundles in
  let anyEditable := existsb (editableAt formState) (map_to_list matrix).*2 in
  match b with
  | Some b => bool_decide (action b = view)
  | None => false
  end
  || (negb anyEditable && bool_decide (formState ≠ "entry")).

End Resolver.

(** ** Notions the statements use *)

(** The rows of a bundle list in iteration order (outer loop over bundles,
    inner loop over rows), each tagged with the state of its bundle. *)
Definition flatRows (bundles : list BehaviorBundle)
    : list (string * TaskFieldBehavior) :=
  b ← bundles; (λ r, (state b, r)) <$> rows b.

(** A tagged row addresses the pair [(f, s)]. *)
Definition addresses (f s : string) (e : string * TaskFieldBehavior) : Prop :=
  e.1 = s ∧ field_name e.2 = f.

#[global] Instance addresses_dec f s e : Decision (addresses f s e).
Proof. unfold addresses. apply _. Defined.

(** What the codec keeps of a cell: [required] only counts on an editable
    cell. *)
Definition coerce (c : FieldCell) : FieldCell :=
  {| mode := mode c;
     required := required c && bool_decide (mode c = editable) |}.

(** The row [bundlesFromMatrix] pushes for an entry of the matrix in a state:
    the row of the own cell, the row of an inherited member, or none. *)
Definition rowAt (s : string) (e : string * StateRow) : option TaskFieldBehavior :=
  match member e.2 s with
  | Own c => Some (Codec.rowOfCell e.1 c)
  | Builtin => Some (Codec.rowOfBuiltin e.1)
  | Missing => None
  end.

(** All the nodes below a component list, parents before children and
    siblings left to right. *)
Fixpoint preorderNode (c : Comp) : list Comp :=
  c :: match components c with
       | Some cs =>
           (fix loop (cs : list Comp) : list Comp :=
              match cs with
              | [] => []
              | c' :: cs' => preorderNode c' ++ loop cs'
              end) cs
       | None => []
       end.

Definition preorder (cs : list Comp) : list Comp := cs ≫= preorderNode.

(** The Field a node contributes by itself, if any. *)
Definition fieldOf (c : Comp) : option FieldMeta.t :=
  if Schema.isDisplay c then None
  else Schema.fieldMeta c <$> truthyKey (key c).

(** The rows of a bundle that name the field [x]. *)
Definition rowsFor (x : string) (rs : list TaskFieldBehavior)
    : list TaskFieldBehavior :=
  filter (λ r, field_name r = x) rs.

(** ** core/schema.ts: the other schema utilities *)

Module SchemaUtil.

(** The body of the loop of [extractFieldKeys] for one component. *)
Fixpoint extractKeysNode (c : Comp) (acc : list string) : list string :=
  let children (acc : list string) :=
    match components c with               (* Array.isArray(c.components) *)
    | Some cs =>
        (fix loop (cs : list Comp) (acc : list string) :=
           match cs with
           | [] => acc
           | c' :: cs' => loop cs' (extractKeysNode c' acc)
           end) cs acc
    | None => acc
    end in
  if Schema.isDisplay c then children acc
  else
    let acc' :=
      match truthyKey (key c) with
      | Some k => acc ++ [k]
      | None => acc
      end in
    children acc'.

Definition extractFieldKeys (components : list Comp) (acc : list string)
    : list string :=
  foldl (λ acc c, extractKeysNode c acc) acc components.

(** The body of the loop of [indexByKey] for one component:
    [if (c?.key) map.set(c.key, c)], then the children. *)
Fixpoint indexNode (c : Comp) (map : gmap string Comp) : gmap string Comp :=
  let map' :=
    match truthyKey (key c) with
    | Some k => <[k := c]> map
    | None => map
    end in
  match components c with
  | Some cs =>
      (fix loop (cs : list Comp) (map : gmap string Comp) :=
         match cs with
         | [] => map
         | c' :: cs' => loop cs' (indexNode c' map)
         end) cs map'
  | None => map'
  end.

Definition indexByKey (components : list Comp) (map : gmap string Comp)
    : gmap string Comp :=
  foldl (λ m c, indexNode c m) map components.

End SchemaUtil.

(** ** components/BehaviorMatrix.tsx: editing and loading *)

(** [Partial<FieldCell>] *)
Record CellPatch := mkPatch {
  patch_mode : option CellMode;
  patch_required : option bool
}.

Module MatrixEditor.

(** [fields = extractFields(schema?.components || [])] and
    [safeValue = ensureAllCells(value || {}, fields.map(f => f.key), states)]. *)
Definition safeValue (components : list Comp) (states : list string)
    (value : BehaviorMatrixValue) : Run BehaviorMatrixValue :=
  Matrix.ensureAllCells value
    (FieldMeta.key <$> Schema.extractFields components []) states.

(** [setCell], as the matrix it hands to [onChange].  [Throws] is the
    [TypeError] of reading a member of [undefined]: [next[fieldKey][state]]
    without a row for [fieldKey], or [cur.mode] / [cur.required] without a
    cell when the patch leaves that member out. *)
Definition setCell (safeValue : BehaviorMatrixValue) (fieldKey state : string)
    (patch : CellPatch) : Run BehaviorMatrixValue :=
  match member safeValue fieldKey with
  | Missing => Throws
  | Builtin => Escapes (InheritedRow fieldKey)
  | Own row =>
      match member row state with
      | Builtin => Escapes (InheritedCell state)
      | Own cur =>
          Returns (<[fieldKey :=
                       <[state := {| mode := default (mode cur) (patch_mode patch);
                                     required := default (required cur)
                                                   (patch_required patch) |}]> row]>
                     safeValue)
      | Missing =>
          match patch_mode patch, patch_required patch with
          | Some m, Some r =>
              Returns (<[fieldKey := <[state := {| mode := m; required := r |}]> row]>
                         safeValue)
          | _, _ => Throws
          end
      end
  end.

(** The matrix the loader emits for a server matrix:
    [ensureAllCells(overlayMatrixSourceWins(before, serverMatrix), fieldKeys, states)]. *)
Definition loadedMatrix (before serverMatrix : BehaviorMatrixValue)
    (fieldKeys states : list string) : Run BehaviorMatrixValue :=
  overlaid ← Matrix.overlayMatrixSourceWins before serverMatrix;
  Matrix.ensureAllCells overlaid fieldKeys states.

End MatrixEditor.

(** ** App.tsx: the derived bundles, schema and read-only flag *)

Module App.

Definition STATES : list (string * string) :=
  [ ("entry", "Entry");
    ("review.section1", "Review: Section 1");
    ("review.section2", "Review: Section 2");
    ("approve", "Approve") ].

(** [bundlesFromMatrix(matrix, STATES.map(s => s.id))] *)
Definition bundles (matrix : BehaviorMatrixValue) : list BehaviorBundle :=
  Codec.bundlesFromMatrix matrix (fst <$> STATES).

(** [bundles.find(x => x.state === formState)
     || { state: formState, action: 'view', rows: [] }] *)
Definition bundleFor (bundles : list BehaviorBundle) (formState : string)
    : BehaviorBundle :=
  default {| state := formState; action := view; rows := [] |}
          (find (λ x, bool_decide (state x = formState)) bundles).

Definition enriched (schema : FormSchema) (matrix : BehaviorMatrixValue)
    (formState : string) : FormSchema :=
  Enrich.enrichFormSchemaForState schema (bundleFor (bundles matrix) formState).

Definition readOnly (matrix : BehaviorMatrixValue) (formState : string) : bool :=
  Resolver.readOnly (bundles matrix) matrix formState.

End App.

(** ** core/formsCrud.ts: joining the API base and a path *)

Module FormsCrud.

(** The character [/]. *)
Definition SLASH : Ascii.ascii :=
  Eval cbv in match "/" with String a _ => a | EmptyString => Ascii.zero end.

(** [path.replace(/^\/+/, '')]: the path without its leading slashes. *)
Fixpoint stripLeadingSlashes (s : string) : string :=
  match s with
  | String a s' => if Ascii.eqb a SLASH then stripLeadingSlashes s' else s
  | EmptyString => EmptyString
  end.

(** [base.replace(/\/+$/, '')]: the base without its trailing slashes. *)
Fixpoint stripTrailingSlashes (s : string) : string :=
  match s with
  | String a s' =>
      match stripTrailingSlashes s' with
      | EmptyString => if Ascii.eqb a SLASH then EmptyString else String a EmptyString
      | t => String a t
      end
  | EmptyString => EmptyString
  end.

Definition join (base path : string) : string :=
  stripTrailingSlashes base +:+ "/" +:+ stripLeadingSlashes path.

End FormsCrud.

(** ** App copy.tsx: the earlier codec kept beside the core one *)

Module Legacy.

(** The row of the earlier [bundlesFromMatrix] for one field:
    [cell = matrix[field][s] || { mode: 'hidden', required: false }], where an
    inherited member is truthy and has no [mode] and no [required]. *)
Definition rowOfField (action : ActionContext) (s : string)
    (e : string * StateRow) : TaskFieldBehavior :=
  match member e.2 s with
  | Own cell =>
      {| field_name := e.1; action_context := action;
         visible := Some (bool_decide (mode cell ≠ hidden));
         row_required := Some (required cell) |}
  | Builtin =>
      {| field_name := e.1; action_context := action;
         visible := Some true; row_required := Some false |}
  | Missing =>
      {| field_name := e.1; action_context := action;
         visible := Some false; row_required := Some false |}
  end.

(** One bundle of the earlier [bundlesFromMatrix]: the action is [create]
    for the state ["entry"], else [update] when some field is editable in the
    state, else [view]; there is a row for every field of the matrix, and
    every row carries the action of its bundle. *)
Definition bundleOfState (matrix : BehaviorMatrixValue) (s : string)
    : BehaviorBundle :=
  let anyEditable := existsb (λ e, editableAt s e.2) (map_to_list matrix) in
  let action :=
    if bool_decide (s = "entry") then create
    else if anyEditable then update else view in
  {| state := s; action := action;
     rows := rowOfField action s <$> map_to_list matrix |}.

Definition bundlesFromMatrix (matrix : BehaviorMatrixValue)
    (states : list string) : list BehaviorBundle :=
  foldl (λ bundles s, bundles ++ [bundleOfState matrix s]) [] states.

(** The cell the earlier [matrixFromBundles] makes of a row: the mode
    follows the action of the bundle, not the row's own [action_context]. *)
Definition cellOfRow (b : BehaviorBundle) (row : TaskFieldBehavior) : FieldCell :=
  {| mode := if bool_decide (visible row = Some false) then hidden
             else if bool_decide (action b = view) then readonly else editable;
     required := truthy (row_required row) |}.

(** [out[row.field_name] = out[row.field_name] || {};
     out[row.field_name][b.state] = { mode, required }] *)
Definition putRow (b : BehaviorBundle) (out : BehaviorMatrixValue)
    (row : TaskFieldBehavior) : Run BehaviorMatrixValue :=
  let key := field_name row in
  match member out key with
  | Own r => r' ← assign r (state b) (cellOfRow b row); Returns (<[key := r']> out)
  | Builtin => Escapes (InheritedRow key)
  | Missing => r' ← assign ∅ (state b) (cellOfRow b row); Returns (<[key := r']> out)
  end.

Definition matrixFromBundles (bundles : list BehaviorBundle)
    : Run BehaviorMatrixValue :=
  forEach (λ out b, forEach (putRow b) out (rows b)) ∅ bundles.

End Legacy.

(** ** The dictionary reading of the loops

    What the loops above compute when every name is an own key or names
    nothing: plain insertions into finite maps.  These are not the code; the
    functions above are compared with them. *)

Module Dict.

Definition ensureStates (states : list string) (row : StateRow) : StateRow :=
  foldl (λ r st, <[st := default Matrix.DEFAULT_CELL (r !! st)]> r) row states.

Definition ensureAllCells (matrix : BehaviorMatrixValue)
    (fieldKeys states : list string) : BehaviorMatrixValue :=
  foldl (λ out fk, <[fk := ensureStates states (default ∅ (out !! fk))]> out)
        matrix fieldKeys.

Definition overlayRow (src row : StateRow) : StateRow :=
  foldl (λ r e, <[e.1 := e.2]> r) row (map_to_list src).

Definition overlayMatrixSourceWins (target source : BehaviorMatrixValue)
    : BehaviorMatrixValue :=
  foldl (λ out e, <[e.1 := overlayRow e.2 (default ∅ (out !! e.1))]> out)
        target (map_to_list source).

Definition putRow (st : string) (m : BehaviorMatrixValue)
    (row : TaskFieldBehavior) : BehaviorMatrixValue :=
  let key := field_name row in
  <[key := <[st := Codec.cellOfRow row]> (default ∅ (m !! key))]> m.

Definition matrixFromBundles (bundles : list BehaviorBundle) : BehaviorMatrixValue :=
  foldl (λ m b, foldl (putRow (state b)) m (rows b)) ∅ bundles.

Definition legacyPutRow (b : BehaviorBundle) (out : BehaviorMatrixValue)
    (row : TaskFieldBehavior) : BehaviorMatrixValue :=
  <[field_name row :=
      <[state b := Legacy.cellOfRow b row]> (default ∅ (out !! field_name row))]> out.

Definition legacyMatrixFromBundles (bundles : list BehaviorBundle)
    : BehaviorMatrixValue :=
  foldl (λ out b, foldl (legacyPutRow b) out (rows b)) ∅ bundles.

End Dict.

(** ** Further notions the statements use *)

(** What the enricher leaves of a node as it is. *)
Definition identityOf (n : Comp)
    : option string * option string * option string * option string :=
  (key n, type n, label n, text n).

(** The nodes of a component list that are neither hidden nor below a hidden
    node, parents before children. *)
Fixpoint survivorsNode (rules : gmap string FieldCell) (n : Comp) : list Comp :=
  if bool_decide (mode <$> Enrich.ruleFor rules n = Some hidden) then []
  else
    n :: match components n with
         | Some cs =>
             (fix loop (cs : list Comp) : list Comp :=
                match cs with
                | [] => []
                | c :: cs' => survivorsNode rules c ++ loop cs'
                end) cs
         | None => []
         end.

Definition survivors (rules : gmap string FieldCell) (cs : list Comp)
    : list Comp :=
  cs ≫= survivorsNode rules.

(** A run of [n] slashes. *)
Fixpoint slashes (n : nat) : string :=
  match n with
  | O => EmptyString
  | S n' => String FormsCrud.SLASH (slashes n')
  end.

(** ** Sample schemas, matrices and bundles *)

Module Examples.
Import Matrix.

Definition edited : BehaviorMatrixValue :=
  {[ "name" := {[ "entry" := mkCell editable true ]};
     "legacy" := {[ "archived" := mkCell readonly false ]} ]}.

Definition loaded : BehaviorMatrixValue :=
  {[ "name" := {[ "entry" := mkCell readonly false;
                  "approve" := mkCell hidden false ]} ]}.

Definition hiddenRequired : BehaviorMatrixValue :=
  {[ "f" := {[ "s" := mkCell hidden true ]} ]}.

(** [{components: [{type: "text", text: "hi"},
                   {type: "group", components: [{key: "a", type: "textfield"}]}]}] *)
Definition textThenGroup : list Comp :=
  [ mkComp None (Some "text") None (Some "hi") None None None;
    mkComp None (Some "group") None None None None
      (Some [ mkComp (Some "a") (Some "textfield") None None None None None ]) ].

Definition leaf (k : string) : Comp :=
  mkComp (Some k) (Some "textfield") None None None None None.

Definition group (cs : list Comp) : Comp :=
  mkComp None (Some "group") None None None None (Some cs).

(** The field ["x"] three containers deep, next to a field ["y"]. *)
Definition nested : FormSchema :=
  mkSchema (Some "default")
           (Some [ group [ group [ group [ leaf "x"; leaf "y" ] ] ] ]).

Definition hideX : BehaviorBundle :=
  mkBundle "review" view [ mkRow "x" view (Some false) (Some false) ].

(** Two rows for ["x"]: hidden first, editable last. *)
Definition hideThenEditX : BehaviorBundle :=
  mkBundle "review" update
    [ mkRow "x" view (Some false) (Some false);
      mkRow "x" update (Some true) (Some false) ].

(** A row and a node that share the empty key. *)
Definition hideEmpty : BehaviorBundle :=
  mkBundle "review" view [ mkRow "" view (Some false) (Some false) ].

Definition editEmpty : BehaviorBundle :=
  mkBundle "entry" update [ mkRow "" update (Some true) (Some true) ].

Definition emptyKeySchema : FormSchema :=
  mkSchema (Some "default") (Some [ leaf "" ]).

(** [{field_name: "y", action_context: "update", visible: true,
      required: true}] and its [view] variant. *)
Definition editY : BehaviorBundle :=
  mkBundle "entry" update [ mkRow "y" update (Some true) (Some true) ].

Definition viewY : BehaviorBundle :=
  mkBundle "approve" view [ mkRow "y" view (Some true) (Some true) ].

Definition declaredY : Comp :=
  mkComp (Some "y") (Some "textfield") (Some "Y") None None
         (Some {| v_required := Some true |}) None.
End Examples.

(** * Properties *)

Section fold_entries.
Context {V A : Type}.

(** A loop over the entries of an object that rewrites, for every entry,
    the slot of the accumulator with the same key. *)
Lemma foldl_entries_lookup (g : V → option A → A) (l : list (string * V))
    (acc : gmap string A) (k : string) :
  NoDup l.*1 →
  foldl (λ out e, <[e.1 := g e.2 (out !! e.1)]> out) acc l !! k =
  match (list_to_map l : gmap string V) !! k with
  | Some v => Some (g v (acc !! k))
  | None => acc !! k
  end.
Proof.
  revert acc. induction l as [|[a v] l IH]; intros acc Hnd; simpl.
  - by rewrite lookup_empty.
  - apply NoDup_cons in Hnd as [Ha Hnd]. rewrite IH by done.
    destruct (decide (a = k)) as [->|Hne].
    + rewrite lookup_insert_eq.
      by rewrite (not_elem_of_list_to_map_1 _ k Ha), lookup_insert_eq.
    + rewrite !lookup_insert_ne by done. done.
Qed.
End fold_entries.

(** ** Reads, writes and loops *)

Section object_props.
Context {V : Type}.
Implicit Types (o : gmap string V) (k : string) (v : V).

Lemma ordinary_inherited k : ordinary k ↔ inherited k = false.
Proof.
  unfold ordinary, inherited. by rewrite bool_decide_eq_false.
Qed.

Lemma ordinary_not_proto k : ordinary k → k ≠ "__proto__".
Proof. intros Hk ->. apply Hk, list_elem_of_here. Qed.

Lemma member_plain o k :
  plain o k →
  member o k = match o !! k with Some a => Own a | None => Missing end.
Proof.
  unfold member. intros [[a Ha]|Hk%ordinary_inherited].
  - by rewrite Ha.
  - by rewrite Hk.
Qed.

Lemma member_Own o k a : member o k = Own a ↔ o !! k = Some a.
Proof.
  unfold member. destruct (o !! k); [|destruct (inherited k)]; naive_solver.
Qed.

Lemma member_not_Builtin o k : member o k ≠ Builtin ↔ plain o k.
Proof.
  unfold member, plain. rewrite ordinary_inherited.
  destruct (o !! k) as [a|] eqn:Ha.
  - split; [eauto|done].
  - destruct (inherited k); split; try done.
    + by intros [[??]|?].
    + by right.
Qed.

Lemma assign_Returns o k v :
  assignable o k → assign o k v = Returns (<[k := v]> o).
Proof.
  unfold assign. intros [[a Ha]|Hk].
  - by rewrite Ha.
  - rewrite bool_decide_eq_false_2 by done. by destruct (o !! k).
Qed.

Lemma assign_inv o k v o' :
  assign o k v = Returns o' → o' = <[k := v]> o ∧ assignable o k.
Proof.
  unfold assign, assignable. destruct (o !! k) as [a|] eqn:Ha.
  - intros [= <-]. eauto.
  - case_bool_decide; [done|]. intros [= <-]. eauto.
Qed.

Lemma keys_ordinary o :
  Forall ordinary (keys o) → ∀ k, is_Some (o !! k) → ordinary k.
Proof.
  unfold keys. rewrite Forall_forall. intros Ho k [a Ha]. apply Ho.
  apply list_elem_of_fmap. exists (k, a). split; [done|].
  by apply elem_of_map_to_list.
Qed.

Lemma plain_insert o k k' v : plain o k → plain (<[k' := v]> o) k.
Proof.
  intros [Hk|Hk]; [left|by right].
  rewrite lookup_insert_is_Some. destruct (decide (k' = k)); eauto.
Qed.

Lemma assignable_insert o k k' v : assignable o k → assignable (<[k' := v]> o) k.
Proof.
  intros [Hk|Hk]; [left|by right].
  rewrite lookup_insert_is_Some. destruct (decide (k' = k)); eauto.
Qed.

Lemma plain_insert_inv o k k' v : plain (<[k' := v]> o) k → k = k' ∨ plain o k.
Proof.
  destruct (decide (k = k')) as [|Hne]; [by left|]. right.
  unfold plain in *. by rewrite lookup_insert_ne in * by done.
Qed.

Lemma assignable_insert_inv o k k' v :
  assignable (<[k' := v]> o) k → k = k' ∨ assignable o k.
Proof.
  destruct (decide (k = k')) as [|Hne]; [by left|]. right.
  unfold assignable in *. by rewrite lookup_insert_ne in * by done.
Qed.

End object_props.

Section loop_props.
Context {A B : Type}.
Implicit Types (body : A → B → Run A) (g : A → B → A) (l : list B).

Lemma forEach_app body a l1 l2 :
  forEach body a (l1 ++ l2) = forEach body a l1 ≫= λ a', forEach body a' l2.
Proof.
  revert a. induction l1 as [|b l1 IH]; intros a; [done|].
  cbn [forEach app]. destruct (body a b) as [a'| |]; [|done..].
  apply IH.
Qed.

(** A loop whose body always returns what [g] computes returns the fold of
    [g]. *)
Lemma forEach_Returns body g l a :
  (∀ a b, b ∈ l → body a b = Returns (g a b)) →
  forEach body a l = Returns (foldl g a l).
Proof.
  revert a. induction l as [|b l IH]; intros a Hb; [done|].
  cbn [forEach foldl]. rewrite Hb by apply list_elem_of_here.
  apply IH. intros a' b' Hin. by apply Hb, list_elem_of_further.
Qed.

(** What a loop returns, when it returns, is the fold of what its body
    returns. *)
Lemma forEach_inv body g l a a' :
  (∀ a b a', b ∈ l → body a b = Returns a' → a' = g a b) →
  forEach body a l = Returns a' → a' = foldl g a l.
Proof.
  revert a. induction l as [|b l IH]; intros a Hb.
  - by intros [= <-].
  - cbn [forEach foldl]. destruct (body a b) as [a1| |] eqn:Ha1; [|done..].
    rewrite (Hb a b a1 (list_elem_of_here _ _) Ha1).
    apply IH. intros a2 b2 a3 Hin. by apply Hb, list_elem_of_further.
Qed.

End loop_props.

(** ** Completion and overlay, read as dictionaries *)

Section matrix_props.
Import Matrix Dict.
Implicit Types (M : BehaviorMatrixValue) (row : StateRow) (F S : list string).

Lemma ensureStates_lookup S row s :
  ensureStates S row !! s =
  if decide (s ∈ S) then Some (default DEFAULT_CELL (row !! s)) else row !! s.
Proof.
  unfold ensureStates. revert row.
  induction S as [|a S IH]; intros row; cbn [foldl].
  - rewrite decide_False; [done|apply not_elem_of_nil].
  - rewrite IH. destruct (decide (a = s)) as [->|Hne].
    + rewrite lookup_insert_eq, (decide_True (P := s ∈ s :: S))
        by apply list_elem_of_here.
      by destruct (decide (s ∈ S)).
    + rewrite lookup_insert_ne by done.
      destruct (decide (s ∈ S)) as [Hin|Hnin].
      * rewrite decide_True; [done|by apply list_elem_of_further].
      * rewrite decide_False; [done|].
        intros [?|?]%elem_of_cons; [congruence|done].
Qed.

Lemma ensureStates_idemp S row :
  ensureStates S (ensureStates S row) = ensureStates S row.
Proof.
  apply map_eq. intros s. rewrite !ensureStates_lookup.
  by destruct (decide (s ∈ S)).
Qed.

Lemma ensureAllCells_lookup M F S f :
  ensureAllCells M F S !! f =
  if decide (f ∈ F) then Some (ensureStates S (default ∅ (M !! f))) else M !! f.
Proof.
  unfold ensureAllCells. revert M.
  induction F as [|a F IH]; intros M; cbn [foldl].
  - rewrite decide_False; [done|apply not_elem_of_nil].
  - rewrite IH. destruct (decide (a = f)) as [->|Hne].
    + rewrite lookup_insert_eq, (decide_True (P := f ∈ f :: F))
        by apply list_elem_of_here.
      destruct (decide (f ∈ F)); [|done].
      simpl. by rewrite ensureStates_idemp.
    + rewrite lookup_insert_ne by done.
      destruct (decide (f ∈ F)) as [Hin|Hnin].
      * rewrite decide_True; [done|by apply list_elem_of_further].
      * rewrite decide_False; [done|].
        intros [?|?]%elem_of_cons; [congruence|done].
Qed.


Lemma cellAt_ensureAllCells M F S f s :
  cellAt (ensureAllCells M F S) f s =
  if decide (f ∈ F ∧ s ∈ S)
  then Some (default DEFAULT_CELL (cellAt M f s))
  else cellAt M f s.
Proof.
  unfold cellAt. rewrite ensureAllCells_lookup.
  destruct (decide (f ∈ F)) as [Hf|Hf]; simpl.
  - rewrite ensureStates_lookup. destruct (decide (s ∈ S)) as [Hs|Hs].
    + rewrite decide_True by done. by destruct (M !! f).
    + rewrite decide_False by tauto. by destruct (M !! f).
  - by rewrite decide_False by tauto.
Qed.

Lemma overlayRow_lookup src row s :
  overlayRow src row !! s =
  match src !! s with Some c => Some c | None => row !! s end.
Proof.
  unfold overlayRow.
  rewrite (foldl_entries_lookup (λ c _, c)) by apply NoDup_fst_map_to_list.
  by rewrite list_to_map_to_list.
Qed.

Lemma overlayMatrixSourceWins_lookup (target source : BehaviorMatrixValue) f :
  overlayMatrixSourceWins target source !! f =
  match source !! f with
  | Some src => Some (overlayRow src (default ∅ (target !! f)))
  | None => target !! f
  end.
Proof.
  unfold overlayMatrixSourceWins.
  rewrite (foldl_entries_lookup (λ src o, overlayRow src (default ∅ o)))
    by apply NoDup_fst_map_to_list.
  by rewrite list_to_map_to_list.
Qed.

Lemma cellAt_overlayMatrixSourceWins (target source : BehaviorMatrixValue) f s :
  cellAt (overlayMatrixSourceWins target source) f s =
  match cellAt source f s with
  | Some c => Some c
  | None => cellAt target f s
  end.
Proof.
  unfold cellAt. rewrite overlayMatrixSourceWins_lookup.
  destruct (source !! f) as [src|]; cbn; [|done].
  rewrite overlayRow_lookup. destruct (src !! s); [done|].
  by destruct (target !! f).
Qed.

End matrix_props.

(** ** Completion and overlay: the runs and their dictionary reading *)

Section matrix_runs.
Import Matrix.
Implicit Types (M : BehaviorMatrixValue) (row : StateRow) (F S : list string).

Lemma ensureCell_Returns row st :
  plain row st →
  ensureCell row st = Returns (<[st := default DEFAULT_CELL (row !! st)]> row).
Proof.
  intros Hp. unfold ensureCell. rewrite member_plain by done.
  by destruct (row !! st).
Qed.

Lemma ensureCell_inv row st row' :
  ensureCell row st = Returns row' →
  row' = <[st := default DEFAULT_CELL (row !! st)]> row ∧ plain row st.
Proof.
  unfold ensureCell. intros Hr.
  assert (Hp : plain row st).
  { apply member_not_Builtin. intros Hb. by rewrite Hb in Hr. }
  split; [|done]. rewrite member_plain in Hr by done.
  destruct (row !! st); by simplify_eq.
Qed.

Lemma ensureStates_Returns S row :
  (∀ st, st ∈ S → plain row st) →
  ensureStates S row = Returns (Dict.ensureStates S row).
Proof.
  unfold ensureStates, Dict.ensureStates. revert row.
  induction S as [|a S IH]; intros row Hp; [done|].
  cbn [forEach foldl]. rewrite ensureCell_Returns by apply Hp, list_elem_of_here.
  apply IH. intros st Hst. by apply plain_insert, Hp, list_elem_of_further.
Qed.

Lemma ensureStates_inv S row row' :
  ensureStates S row = Returns row' → row' = Dict.ensureStates S row.
Proof.
  apply forEach_inv. intros r st r' _ Hr. by apply ensureCell_inv in Hr as [-> _].
Qed.

Lemma ensureStates_Returns_plain S row row' :
  ensureStates S row = Returns row' → ∀ st, st ∈ S → plain row st.
Proof.
  unfold ensureStates. revert row.
  induction S as [|a S IH]; intros row Hr st Hst.
  - by apply not_elem_of_nil in Hst.
  - cbn [forEach] in Hr.
    destruct (ensureCell row a) as [row1| |] eqn:Ha; [|done..].
    apply ensureCell_inv in Ha as [-> Ha]. cbn in Hr.
    apply elem_of_cons in Hst as [->|Hst]; [done|].
    by destruct (plain_insert_inv _ _ _ _ (IH _ Hr st Hst)) as [->|].
Qed.

Lemma ensureField_Returns S M fk :
  plain M fk → (∀ st, st ∈ S → plain (default ∅ (M !! fk)) st) →
  ensureField S M fk =
  Returns (<[fk := Dict.ensureStates S (default ∅ (M !! fk))]> M).
Proof.
  intros Hp Hs. unfold ensureField. rewrite member_plain by done.
  destruct (M !! fk) as [row|]; cbn in Hs |- *;
    by rewrite ensureStates_Returns.
Qed.

Lemma ensureField_inv S M fk M' :
  ensureField S M fk = Returns M' →
  M' = <[fk := Dict.ensureStates S (default ∅ (M !! fk))]> M
  ∧ plain M fk
  ∧ ∀ st, st ∈ S → plain (default ∅ (M !! fk)) st.
Proof.
  unfold ensureField. intros Hr.
  assert (Hp : plain M fk).
  { apply member_not_Builtin. intros Hb. by rewrite Hb in Hr. }
  rewrite member_plain in Hr by done.
  destruct (M !! fk) as [row|]; cbn.
  - destruct (ensureStates S row) as [row'| |] eqn:Hrow; simplify_eq/=.
    split; [|split; [done|by eapply ensureStates_Returns_plain]].
    by apply ensureStates_inv in Hrow as ->.
  - destruct (ensureStates S ∅) as [row'| |] eqn:Hrow; simplify_eq/=.
    split; [|split; [done|by eapply ensureStates_Returns_plain]].
    by apply ensureStates_inv in Hrow as ->.
Qed.

(** A completion returns when every listed field key, and every listed state
    of its row, is an own key or a name no object inherits; what it returns
    is the dictionary reading. *)
Lemma ensureAllCells_Returns M F S :
  (∀ fk, fk ∈ F →
     plain M fk ∧ ∀ st, st ∈ S → plain (default ∅ (M !! fk)) st) →
  ensureAllCells M F S = Returns (Dict.ensureAllCells M F S).
Proof.
  unfold ensureAllCells, Dict.ensureAllCells. revert M.
  induction F as [|a F IH]; intros M Hp; [done|].
  cbn [forEach foldl].
  destruct (Hp a (list_elem_of_here _ _)) as [Ha Has].
  rewrite ensureField_Returns by done. cbn.
  apply IH. intros fk Hfk.
  destruct (Hp fk (list_elem_of_further _ _ _ Hfk)) as [Hf Hfs].
  split; [by apply plain_insert|].
  intros st Hst. destruct (decide (a = fk)) as [->|Hne].
  - rewrite lookup_insert_eq. cbn. left.
    rewrite ensureStates_lookup, decide_True by done. eauto.
  - rewrite lookup_insert_ne by done. by apply Hfs.
Qed.

Lemma ensureAllCells_inv M F S M' :
  ensureAllCells M F S = Returns M' → M' = Dict.ensureAllCells M F S.
Proof.
  apply forEach_inv. intros out fk out' _ Hr.
  by apply ensureField_inv in Hr as [-> _].
Qed.

Lemma ensureAllCells_Returns_plain M F S M' :
  ensureAllCells M F S = Returns M' →
  ∀ fk, fk ∈ F →
    plain M fk ∧ ∀ st, st ∈ S → plain (default ∅ (M !! fk)) st.
Proof.
  unfold ensureAllCells. revert M.
  induction F as [|a F IH]; intros M Hr fk Hfk.
  - by apply not_elem_of_nil in Hfk.
  - cbn [forEach] in Hr.
    destruct (ensureField S M a) as [M1| |] eqn:Ha; [|done..].
    apply ensureField_inv in Ha as (-> & Hpa & Hsa). cbn in Hr.
    destruct (decide (fk = a)) as [->|Hne]; [done|].
    apply elem_of_cons in Hfk as [?|Hfk]; [done|].
    destruct (IH _ Hr fk Hfk) as [Hp Hs]. unfold plain in Hp.
    by rewrite lookup_insert_ne in Hp, Hs by done.
Qed.

(** When a completion returns. *)
Lemma ensureAllCells_Returns_iff M F S :
  (∃ M', ensureAllCells M F S = Returns M') ↔
  ∀ fk, fk ∈ F →
    plain M fk ∧ ∀ st, st ∈ S → plain (default ∅ (M !! fk)) st.
Proof.
  split.
  - intros [M' HM']. by eapply ensureAllCells_Returns_plain.
  - intros Hp. eexists. by apply ensureAllCells_Returns.
Qed.


Lemma overlayRow_Returns (src row : StateRow) :
  (∀ st, is_Some (src !! st) → assignable row st) →
  overlayRow src row = Returns (Dict.overlayRow src row).
Proof.
  unfold overlayRow, Dict.overlayRow. intros Hs.
  assert (Hl : ∀ e, e ∈ map_to_list src → assignable row e.1).
  { intros [st c] Hin%elem_of_map_to_list. apply Hs. eauto. }
  clear Hs. revert row Hl.
  induction (map_to_list src) as [|e l IH]; intros row Hl; [done|].
  cbn [forEach foldl]. rewrite assign_Returns by apply Hl, list_elem_of_here.
  apply IH. intros e' He'. by apply assignable_insert, Hl, list_elem_of_further.
Qed.

Lemma overlayRow_inv (src row row' : StateRow) :
  overlayRow src row = Returns row' → row' = Dict.overlayRow src row.
Proof.
  apply forEach_inv. intros r e r' _ Hr. by apply assign_inv in Hr as [-> _].
Qed.

Lemma overlayRow_Returns_assignable (src row row' : StateRow) :
  overlayRow src row = Returns row' →
  ∀ st, is_Some (src !! st) → assignable row st.
Proof.
  unfold overlayRow. intros Hr st [c Hc].
  apply elem_of_map_to_list in Hc. revert row Hr.
  induction (map_to_list src) as [|e l IH]; intros row Hr.
  - by apply not_elem_of_nil in Hc.
  - cbn [forEach] in Hr.
    destruct (assign row e.1 e.2) as [row1| |] eqn:Ha; [|done..].
    apply assign_inv in Ha as [-> Ha]. cbn in Hr.
    apply elem_of_cons in Hc as [<-|Hc]; [done|].
    by destruct (assignable_insert_inv _ _ _ _ (IH Hc _ Hr)) as [->|].
Qed.

Lemma overlayField_Returns M (e : string * StateRow) :
  plain M e.1 →
  (∀ st, is_Some (e.2 !! st) → assignable (default ∅ (M !! e.1)) st) →
  overlayField M e =
  Returns (<[e.1 := Dict.overlayRow e.2 (default ∅ (M !! e.1))]> M).
Proof.
  intros Hp Hs. unfold overlayField. rewrite member_plain by done.
  destruct (M !! e.1) as [row|]; cbn in Hs |- *;
    by rewrite overlayRow_Returns.
Qed.

Lemma overlayField_inv M (e : string * StateRow) M' :
  overlayField M e = Returns M' →
  M' = <[e.1 := Dict.overlayRow e.2 (default ∅ (M !! e.1))]> M
  ∧ plain M e.1
  ∧ ∀ st, is_Some (e.2 !! st) → assignable (default ∅ (M !! e.1)) st.
Proof.
  unfold overlayField. intros Hr.
  assert (Hp : plain M e.1).
  { apply member_not_Builtin. intros Hb. by rewrite Hb in Hr. }
  rewrite member_plain in Hr by done.
  destruct (M !! e.1) as [row|]; cbn.
  - destruct (overlayRow e.2 row) as [row'| |] eqn:Hrow; simplify_eq/=.
    split; [|split; [done|by eapply overlayRow_Returns_assignable]].
    by apply overlayRow_inv in Hrow as ->.
  - destruct (overlayRow e.2 ∅) as [row'| |] eqn:Hrow; simplify_eq/=.
    split; [|split; [done|by eapply overlayRow_Returns_assignable]].
    by apply overlayRow_inv in Hrow as ->.
Qed.

(** An overlay returns when every field key of the source is an own key of
    the target or a name no object inherits, and no state of the source
    assigns through the inherited accessor; what it returns is the dictionary
    reading. *)
Lemma overlayMatrixSourceWins_Returns (target source : BehaviorMatrixValue) :
  (∀ fk src, source !! fk = Some src →
     plain target fk
     ∧ ∀ st, is_Some (src !! st) → assignable (default ∅ (target !! fk)) st) →
  overlayMatrixSourceWins target source =
  Returns (Dict.overlayMatrixSourceWins target source).
Proof.
  unfold overlayMatrixSourceWins, Dict.overlayMatrixSourceWins. intros Hs.
  assert (Hl : ∀ e, e ∈ map_to_list source →
                 plain target e.1
                 ∧ ∀ st, is_Some (e.2 !! st) →
                         assignable (default ∅ (target !! e.1)) st).
  { intros [fk src] Hin%elem_of_map_to_list. by apply Hs. }
  clear Hs. pose proof (NoDup_fst_map_to_list source) as Hnd.
  revert target Hl.
  induction (map_to_list source) as [|e l IH]; intros target Hl; [done|].
  apply NoDup_cons in Hnd as [He Hnd]. cbn [forEach foldl].
  destruct (Hl e (list_elem_of_here _ _)) as [Hp Ha].
  rewrite overlayField_Returns by done. cbn.
  apply IH; [done|]. intros e' He'.
  destruct (Hl e' (list_elem_of_further _ _ _ He')) as [Hp' Ha'].
  split; [by apply plain_insert|].
  assert (e.1 ≠ e'.1) as Hne.
  { intros Heq. apply He. rewrite Heq. by apply list_elem_of_fmap_2. }
  by rewrite lookup_insert_ne.
Qed.

Lemma overlayMatrixSourceWins_inv (target source M' : BehaviorMatrixValue) :
  overlayMatrixSourceWins target source = Returns M' →
  M' = Dict.overlayMatrixSourceWins target source.
Proof.
  apply forEach_inv. intros out e out' _ Hr.
  by apply overlayField_inv in Hr as [-> _].
Qed.

Lemma overlayMatrixSourceWins_Returns_plain (target source M' : BehaviorMatrixValue) :
  overlayMatrixSourceWins target source = Returns M' →
  ∀ fk src, source !! fk = Some src →
    plain target fk
    ∧ ∀ st, is_Some (src !! st) → assignable (default ∅ (target !! fk)) st.
Proof.
  unfold overlayMatrixSourceWins. intros Hr fk src Hsrc.
  apply elem_of_map_to_list in Hsrc.
  pose proof (NoDup_fst_map_to_list source) as Hnd. revert target Hr.
  induction (map_to_list source) as [|e l IH]; intros target Hr.
  - by apply not_elem_of_nil in Hsrc.
  - apply NoDup_cons in Hnd as [He Hnd]. cbn [forEach] in Hr.
    destruct (overlayField target e) as [M1| |] eqn:Ha; [|done..].
    apply overlayField_inv in Ha as (-> & Hpa & Hsa). cbn in Hr.
    apply elem_of_cons in Hsrc as [<-|Hsrc]; [done|].
    assert (e.1 ≠ fk) as Hne.
    { intros Heq. apply He. rewrite Heq.
      by apply (list_elem_of_fmap_2 fst _ (fk, src)). }
    destruct (IH Hsrc Hnd _ Hr) as [Hp Hs]. unfold plain in Hp. cbn in Hp, Hs.
    by rewrite lookup_insert_ne in Hp, Hs by done.
Qed.

(** When an overlay returns. *)
Lemma overlayMatrixSourceWins_Returns_iff (target source : BehaviorMatrixValue) :
  (∃ M', overlayMatrixSourceWins target source = Returns M') ↔
  ∀ fk src, source !! fk = Some src →
    plain target fk
    ∧ ∀ st, is_Some (src !! st) → assignable (default ∅ (target !! fk)) st.
Proof.
  split.
  - intros [M' HM']. by eapply overlayMatrixSourceWins_Returns_plain.
  - intros Hp. eexists. by apply overlayMatrixSourceWins_Returns.
Qed.

End matrix_runs.

(** ** The codec: the encoder *)

Section codec_props.
Import Codec.
Implicit Types (M : BehaviorMatrixValue) (S : list string)
  (b : BehaviorBundle) (bundles : list BehaviorBundle).

Lemma foldl_push_map {A B} (g : A → B) (l : list A) (acc : list B) :
  foldl (λ out x, out ++ [g x]) acc l = acc ++ (g <$> l).
Proof.
  revert acc. induction l as [|x l IH]; intros acc; simpl.
  - by rewrite app_nil_r.
  - by rewrite IH, <- app_assoc.
Qed.

Lemma bundlesFromMatrix_fmap M S :
  bundlesFromMatrix M S = bundleOfState M <$> S.
Proof. unfold bundlesFromMatrix. by rewrite foldl_push_map. Qed.

Lemma state_bundlesFromMatrix M S : state <$> bundlesFromMatrix M S = S.
Proof.
  rewrite bundlesFromMatrix_fmap, <- list_fmap_compose.
  by induction S as [|s S IH]; [|cbn; f_equal].
Qed.

(** The loop state of [bundleOfState] after scanning the entries [l]. *)
Lemma scanField_foldl s (l : list (string * StateRow)) acc :
  foldl (scanField s) acc l =
  (acc.1 ++ omap (rowAt s) l,
   existsb (λ e, editableAt s e.2) l || acc.2).
Proof.
  revert acc. induction l as [|e l IH]; intros [rs any].
  - simpl. by rewrite app_nil_r.
  - cbn [foldl]. rewrite IH. cbn [omap list_omap existsb].
    unfold scanField, rowAt, editableAt, member.
    destruct (e.2 !! s) as [c|]; [|destruct (inherited s)];
      cbn [fst snd].
    + rewrite <- app_assoc. f_equal.
      destruct (bool_decide (mode c = editable)); [|done].
      by rewrite orb_true_r.
    + by rewrite <- app_assoc.
    + done.
Qed.

Lemma rows_bundleOfState M s :
  rows (bundleOfState M s) = omap (rowAt s) (map_to_list M).
Proof. unfold bundleOfState. by rewrite scanField_foldl. Qed.

Lemma rowAt_field_name s e r : rowAt s e = Some r → field_name r = e.1.
Proof.
  unfold rowAt. destruct (member e.2 s); intros; by simplify_eq.
Qed.

Lemma rowAt_plain s (e : string * StateRow) :
  plain e.2 s → rowAt s e = rowOfCell e.1 <$> e.2 !! s.
Proof.
  intros Hp. unfold rowAt. rewrite member_plain by done.
  by destruct (e.2 !! s).
Qed.

(** The rows of a bundle: one per field of the matrix whose row has an own
    cell for the state, or inherits a member under the name of the state. *)
Lemma elem_of_rows_bundleOfState_gen M s r :
  r ∈ rows (bundleOfState M s) ↔
  ∃ row, M !! field_name r = Some row ∧ rowAt s (field_name r, row) = Some r.
Proof.
  rewrite rows_bundleOfState, list_elem_of_omap. split.
  - intros ([f row] & Hin%elem_of_map_to_list & Hr).
    pose proof (rowAt_field_name _ _ _ Hr) as Hf. cbn in Hf. subst f. eauto.
  - intros (row & Hrow & Hr). exists (field_name r, row).
    split; [by apply elem_of_map_to_list|done].
Qed.

Lemma elem_of_rows_bundleOfState M s r :
  ordinary s →
  r ∈ rows (bundleOfState M s) ↔
  ∃ c, cellAt M (field_name r) s = Some c ∧ r = rowOfCell (field_name r) c.
Proof.
  intros Hs. rewrite elem_of_rows_bundleOfState_gen. unfold cellAt. split.
  - intros (row & Hrow & Hr). rewrite rowAt_plain in Hr by by right.
    cbn in Hr. destruct (row !! s) as [c|] eqn:Hc; simplify_eq/=.
    exists c. by rewrite Hrow.
  - intros (c & Hc & Hr). destruct (M !! field_name r) as [row|] eqn:Hrow;
      simplify_eq/=.
    exists row. split; [done|]. rewrite rowAt_plain by by right.
    cbn. rewrite Hc. cbn. congruence.
Qed.

Lemma action_bundleOfState M s :
  action (bundleOfState M s) =
  if existsb (λ e, editableAt s e.2) (map_to_list M) then update else view.
Proof.
  unfold bundleOfState. rewrite scanField_foldl. simpl.
  by rewrite orb_false_r.
Qed.

Lemma anyEditable_cellAt M s :
  existsb (λ e, editableAt s e.2) (map_to_list M) = true ↔
  ∃ f c, cellAt M f s = Some c ∧ mode c = editable.
Proof.
  rewrite existsb_exists. unfold cellAt, editableAt. split.
  - intros ([f row] & Hin%list_elem_of_In%elem_of_map_to_list & He).
    simpl in He. destruct (row !! s) as [c|] eqn:Hc; [|done].
    apply bool_decide_eq_true in He.
    exists f, c. by rewrite Hin.
  - intros (f & c & Hc & He). destruct (M !! f) as [row|] eqn:Hrow;
      simplify_eq/=.
    exists (f, row). split; [by apply list_elem_of_In, elem_of_map_to_list|].
    simpl. rewrite Hc. by apply bool_decide_eq_true.
Qed.

Lemma field_names_omap s (l : list (string * StateRow)) x :
  x ∈ field_name <$> omap (rowAt s) l → x ∈ l.*1.
Proof.
  intros (r & -> & (e & He & Hr)%list_elem_of_omap)%list_elem_of_fmap.
  rewrite (rowAt_field_name _ _ _ Hr). by apply list_elem_of_fmap_2.
Qed.

Lemma field_names_NoDup M s :
  NoDup (field_name <$> rows (bundleOfState M s)).
Proof.
  rewrite rows_bundleOfState.
  pose proof (NoDup_fst_map_to_list M) as Hnd.
  induction (map_to_list M) as [|e l IH]; [constructor|].
  apply NoDup_cons in Hnd as [He Hnd]. cbn.
  destruct (rowAt s e) as [r|] eqn:Hr; cbn; [|by apply IH].
  constructor; [|by apply IH].
  rewrite (rowAt_field_name _ _ _ Hr). by intros ?%field_names_omap.
Qed.

Lemma cellOfRow_rowOfCell f c : cellOfRow (rowOfCell f c) = coerce c.
Proof. by destruct c as [[] []]. Qed.

Lemma coerce_id c : mode c = editable ∨ required c = false → coerce c = c.
Proof. destruct c as [m r]. simpl. by intros [->| ->]; [destruct r|]. Qed.

Lemma elem_of_flatRows bundles st r :
  (st, r) ∈ flatRows bundles ↔ ∃ b, b ∈ bundles ∧ state b = st ∧ r ∈ rows b.
Proof.
  unfold flatRows. rewrite list_elem_of_bind. split.
  - intros (b & (r' & Heq & Hr)%list_elem_of_fmap & Hb). simplify_eq. eauto.
  - intros (b & Hb & <- & Hr). exists b. split; [|done].
    apply list_elem_of_fmap. eauto.
Qed.

Lemma elem_of_flatRows_bundlesFromMatrix M S st r :
  Forall ordinary S →
  (st, r) ∈ flatRows (bundlesFromMatrix M S) ↔
  st ∈ S ∧ ∃ c, cellAt M (field_name r) st = Some c
                ∧ r = rowOfCell (field_name r) c.
Proof.
  intros HS. rewrite Forall_forall in HS.
  rewrite elem_of_flatRows, bundlesFromMatrix_fmap. split.
  - intros (b & (s' & -> & Hs)%list_elem_of_fmap & Hst & Hr).
    cbn in Hst. subst s'. split; [done|].
    apply elem_of_rows_bundleOfState; auto.
  - intros (Hs & Hr). exists (bundleOfState M st). split; [|split; [done|]].
    + by apply list_elem_of_fmap_2.
    + apply elem_of_rows_bundleOfState; auto.
Qed.

End codec_props.

(** ** The codec: the decoder, read as a dictionary *)

Section decoder_props.
Import Codec Dict.
Implicit Types (M : BehaviorMatrixValue) (S : list string)
  (b : BehaviorBundle) (bundles : list BehaviorBundle).

Lemma cellAt_putRow st (m : BehaviorMatrixValue) row f s :
  cellAt (putRow st m row) f s =
  if decide (addresses f s (st, row)) then Some (cellOfRow row) else cellAt m f s.
Proof.
  unfold cellAt, putRow, addresses. cbn [fst snd].
  destruct (decide (field_name row = f)) as [<-|Hf].
  - rewrite lookup_insert_eq. cbn [mbind option_bind].
    destruct (decide (st = s)) as [<-|Hs].
    + rewrite lookup_insert_eq. by rewrite decide_True.
    + rewrite lookup_insert_ne by done. rewrite decide_False by tauto.
      by destruct (m !! field_name row).
  - rewrite lookup_insert_ne by done. by rewrite decide_False by tauto.
Qed.

Lemma matrixFromBundles_foldl bundles (m : BehaviorMatrixValue) :
  foldl (λ m b, foldl (putRow (state b)) m (rows b)) m bundles =
  foldl (λ m e, putRow e.1 m e.2) m (flatRows bundles).
Proof.
  unfold flatRows. revert m.
  induction bundles as [|b bundles IH]; intros m; [done|].
  cbn [foldl]. rewrite bind_cons, foldl_app, <- IH. f_equal.
  generalize (rows b). clear. intros rs. revert m.
  induction rs as [|r rs IH]; intros m; [done|]. cbn. by rewrite IH.
Qed.

(** A cell of the decoded matrix comes from the last row that addresses
    it. *)
Lemma cellAt_foldl_putRow (l : list (string * TaskFieldBehavior))
    (m : BehaviorMatrixValue) f s :
  cellAt (foldl (λ m e, putRow e.1 m e.2) m l) f s =
  match last (filter (addresses f s) l) with
  | Some e => Some (cellOfRow e.2)
  | None => cellAt m f s
  end.
Proof.
  induction l as [|[st row] l IH] using rev_ind; [done|].
  rewrite foldl_app, filter_app. cbn [foldl fst snd].
  rewrite cellAt_putRow, IH.
  destruct (decide (addresses f s (st, row))) as [Ha|Ha].
  - rewrite (filter_cons_True _ _ _ Ha), filter_nil. by rewrite last_snoc.
  - rewrite (filter_cons_False _ _ _ Ha), filter_nil. by rewrite app_nil_r.
Qed.

Lemma cellAt_matrixFromBundles bundles f s :
  cellAt (matrixFromBundles bundles) f s =
  cellOfRow ∘ snd <$> last (filter (addresses f s) (flatRows bundles)).
Proof.
  unfold matrixFromBundles.
  rewrite matrixFromBundles_foldl, cellAt_foldl_putRow.
  by destruct (last _).
Qed.

Lemma cellAt_roundtrip M S f s :
  Forall ordinary S →
  cellAt (matrixFromBundles (bundlesFromMatrix M S)) f s =
  if decide (s ∈ S) then coerce <$> cellAt M f s else None.
Proof.
  intros HS. rewrite cellAt_matrixFromBundles.
  destruct (last _) as [[st r]|] eqn:Hlast; cbn.
  - apply last_Some_elem_of, list_elem_of_filter in Hlast as [[Hst Hf] Hin].
    cbn in Hst, Hf. subst st f.
    apply elem_of_flatRows_bundlesFromMatrix in Hin as (Hs & c & Hc & Hr);
      [|done].
    rewrite decide_True, Hc by done. cbn.
    by rewrite Hr at 1; rewrite cellOfRow_rowOfCell.
  - apply last_None in Hlast.
    destruct (decide (s ∈ S)) as [Hs|Hs]; [|done].
    destruct (cellAt M f s) as [c|] eqn:Hc; [|done]. exfalso.
    apply (filter_nil_not_elem_of _ _ (s, rowOfCell f c) Hlast); [done|].
    apply elem_of_flatRows_bundlesFromMatrix; eauto.
Qed.

End decoder_props.

(** ** The codec: the runs of the decoder *)

Section decoder_runs.
Import Codec.
Implicit Types (M m : BehaviorMatrixValue) (S : list string)
  (b : BehaviorBundle) (bundles : list BehaviorBundle).

Lemma putRow_Returns st m row :
  ordinary (field_name row) → st ≠ "__proto__" →
  putRow st m row = Returns (Dict.putRow st m row).
Proof.
  intros Hf Hst. unfold putRow, Dict.putRow. cbn zeta.
  rewrite member_plain by by right.
  destruct (m !! field_name row) as [r|]; cbn;
    by rewrite assign_Returns by by right.
Qed.

Lemma putRow_inv st m row m' :
  putRow st m row = Returns m' → m' = Dict.putRow st m row.
Proof.
  unfold putRow, Dict.putRow. cbn zeta. intros Hr.
  assert (Hp : plain m (field_name row)).
  { apply member_not_Builtin. intros Hb. by rewrite Hb in Hr. }
  rewrite member_plain in Hr by done.
  destruct (m !! field_name row) as [r|]; cbn.
  - destruct (assign r st _) as [r'| |] eqn:Ha; simplify_eq/=.
    by apply assign_inv in Ha as [-> _].
  - destruct (assign ∅ st _) as [r'| |] eqn:Ha; simplify_eq/=.
    by apply assign_inv in Ha as [-> _].
Qed.

(** The decoder returns when no row names a field after a member of
    [Object.prototype] and no bundle that has rows is for the state
    [__proto__]; what it returns is the dictionary reading. *)
Lemma matrixFromBundles_Returns bundles :
  (∀ st r, (st, r) ∈ flatRows bundles →
           ordinary (field_name r) ∧ st ≠ "__proto__") →
  matrixFromBundles bundles = Returns (Dict.matrixFromBundles bundles).
Proof.
  intros Hok. unfold matrixFromBundles, Dict.matrixFromBundles.
  apply forEach_Returns. intros m b Hb.
  apply forEach_Returns. intros m' r Hr.
  destruct (Hok (state b) r) as [Hf Hst]; [apply elem_of_flatRows; eauto|].
  by apply putRow_Returns.
Qed.

Lemma matrixFromBundles_inv bundles m :
  matrixFromBundles bundles = Returns m → m = Dict.matrixFromBundles bundles.
Proof.
  apply forEach_inv. intros m1 b m2 _.
  apply forEach_inv. intros m3 r m4 _. apply putRow_inv.
Qed.

Lemma matrixFromBundles_forEach bundles m :
  forEach (λ m b, forEach (putRow (state b)) m (rows b)) m bundles =
  forEach (λ m e, putRow e.1 m e.2) m (flatRows bundles).
Proof.
  unfold flatRows. revert m.
  induction bundles as [|b bundles IH]; intros m; [done|].
  cbn [forEach]. rewrite bind_cons, forEach_app.
  assert (forEach (putRow (state b)) m (rows b) =
          forEach (λ m e, putRow e.1 m e.2) m ((λ r, (state b, r)) <$> rows b))
    as ->.
  { generalize (rows b). clear. intros rs. revert m.
    induction rs as [|r rs IH]; intros m; [done|]. cbn.
    destruct (putRow (state b) m r); [apply IH|done..]. }
  destruct (forEach _ m (_ <$> rows b)); [apply IH|done..].
Qed.

(** A run of [putRow] on a matrix whose field keys are names no object
    inherits and whose rows have no own [__proto__] returns only for such a
    field name and for a state other than [__proto__], and leaves such a
    matrix. *)
Lemma putRow_Returns_inv st m row m' :
  (∀ f, is_Some (m !! f) → ordinary f) →
  (∀ f r, m !! f = Some r → r !! "__proto__" = None) →
  putRow st m row = Returns m' →
  ordinary (field_name row) ∧ st ≠ "__proto__"
  ∧ (∀ f, is_Some (m' !! f) → ordinary f)
  ∧ (∀ f r, m' !! f = Some r → r !! "__proto__" = None).
Proof.
  intros Hkeys Hrows Hr. pose proof (putRow_inv _ _ _ _ Hr) as ->.
  unfold putRow in Hr. cbn zeta in Hr.
  assert (Hp : plain m (field_name row)).
  { apply member_not_Builtin. intros Hb. by rewrite Hb in Hr. }
  assert (Hf : ordinary (field_name row)).
  { destruct Hp as [Hp|Hp]; [by apply Hkeys|done]. }
  rewrite member_plain in Hr by done.
  assert (Hst : st ≠ "__proto__").
  { intros ->. destruct (m !! field_name row) as [r|] eqn:Hrow.
    - destruct (assign r _ _) as [r'| |] eqn:Ha; [|done..].
      apply assign_inv in Ha as [_ [[c Hc]|Hne]]; [|done].
      by rewrite (Hrows _ _ Hrow) in Hc.
    - destruct (assign ∅ _ _) as [r'| |] eqn:Ha; [|done..].
      apply assign_inv in Ha as [_ [[c Hc]|Hne]]; [|done].
      by rewrite lookup_empty in Hc. }
  split; [done|]. split; [done|]. unfold Dict.putRow. cbn zeta. split.
  - intros f [r Hfr]. destruct (decide (field_name row = f)) as [<-|Hne]; [done|].
    rewrite lookup_insert_ne in Hfr by done. apply Hkeys. eauto.
  - intros f r Hfr. destruct (decide (field_name row = f)) as [<-|Hne].
    + rewrite lookup_insert_eq in Hfr. simplify_eq.
      rewrite lookup_insert_ne by done.
      destruct (m !! field_name row) as [r|] eqn:Hrow; cbn; [eauto|].
      apply lookup_empty.
    + rewrite lookup_insert_ne in Hfr by done. eauto.
Qed.

Lemma forEach_putRow_Returns_inv (l : list (string * TaskFieldBehavior)) m m' :
  (∀ f, is_Some (m !! f) → ordinary f) →
  (∀ f r, m !! f = Some r → r !! "__proto__" = None) →
  forEach (λ m e, putRow e.1 m e.2) m l = Returns m' →
  ∀ e, e ∈ l → ordinary (field_name e.2) ∧ e.1 ≠ "__proto__".
Proof.
  revert m. induction l as [|a l IH]; intros m Hkeys Hrows Hr e He.
  - by apply not_elem_of_nil in He.
  - cbn [forEach] in Hr.
    destruct (putRow a.1 m a.2) as [m1| |] eqn:Ha; [|done..].
    apply putRow_Returns_inv in Ha as (Hf & Hst & Hkeys1 & Hrows1); [|done..].
    cbn in Hr. apply elem_of_cons in He as [->|He]; [done|].
    by apply (IH m1).
Qed.

(** When the decoder returns. *)
Lemma matrixFromBundles_Returns_iff bundles :
  (∃ m, matrixFromBundles bundles = Returns m) ↔
  ∀ st r, (st, r) ∈ flatRows bundles →
          ordinary (field_name r) ∧ st ≠ "__proto__".
Proof.
  split.
  - intros [m Hm] st r Hin. unfold matrixFromBundles in Hm.
    rewrite matrixFromBundles_forEach in Hm.
    assert (Hkeys : ∀ f, is_Some ((∅ : BehaviorMatrixValue) !! f) → ordinary f).
    { intros f [r' Hr']. by rewrite lookup_empty in Hr'. }
    assert (Hrows : ∀ f r', (∅ : BehaviorMatrixValue) !! f = Some r' →
                            r' !! "__proto__" = None).
    { intros f r' Hr'. by rewrite lookup_empty in Hr'. }
    exact (forEach_putRow_Returns_inv _ _ _ Hkeys Hrows Hm (st, r) Hin).
  - intros Hok. eexists. by apply matrixFromBundles_Returns.
Qed.

(** The rows of an encoded matrix name own field keys; they are decoded
    when the field keys of the matrix and the states are names no object
    inherits. *)
Lemma matrixFromBundles_bundlesFromMatrix_Returns M S :
  (∀ f, is_Some (M !! f) → ordinary f) → Forall ordinary S →
  matrixFromBundles (bundlesFromMatrix M S) =
  Returns (Dict.matrixFromBundles (bundlesFromMatrix M S)).
Proof.
  intros HM HS. apply matrixFromBundles_Returns. intros st r Hin.
  apply elem_of_flatRows in Hin as (b & Hb & <- & Hr).
  rewrite bundlesFromMatrix_fmap in Hb.
  apply list_elem_of_fmap in Hb as (s & -> & Hs). cbn.
  rewrite Forall_forall in HS. split; [|by apply ordinary_not_proto, HS].
  apply elem_of_rows_bundleOfState_gen in Hr as (row & Hrow & _).
  apply HM. eauto.
Qed.

End decoder_runs.
Section schema_props.
Import Schema.

Lemma preorderNode_unfold c :
  preorderNode c = c :: preorder (default [] (components c)).
Proof.
  by destruct c as [k t l x d v [cs|]].
Qed.

Lemma extractNode_unfold c acc :
  extractNode c acc =
  extractFields (default [] (components c))
    (if isDisplay c then acc
     else match truthyKey (key c) with
          | Some k => acc ++ [fieldMeta c k]
          | None => acc
          end).
Proof.
  assert (Hloop : ∀ cs a,
    (fix loop (cs : list Comp) (acc : list FieldMeta.t) :=
       match cs with
       | [] => acc
       | c' :: cs' => loop cs' (extractNode c' acc)
       end) cs a = extractFields cs a).
  { induction cs as [|c' cs IH]; intros a; [done|]. cbn. by rewrite IH. }
  destruct c as [k t l x d v [cs|]]; cbn [extractNode components default].
  - rewrite !Hloop. by destruct (isDisplay _).
  - cbn. by destruct (isDisplay _).
Qed.

Lemma extractNode_preorder c acc :
  extractNode c acc = acc ++ omap fieldOf (preorderNode c).
Proof.
  revert acc. induction c as [k t l x d v ocs IH] using Comp_tree_ind.
  intros acc. rewrite extractNode_unfold, preorderNode_unfold.
  set (c := mkComp k t l x d v ocs).
  assert (Hcs : ∀ a, extractFields (default [] (components c)) a =
                     a ++ omap fieldOf (preorder (default [] (components c)))).
  { subst c. cbn [components]. unfold extractFields, preorder.
    destruct ocs as [cs|]; cbn [from_option id].
    - induction IH as [|c' cs Hc' _ IHcs]; intros a; cbn [foldl].
      + cbn. by rewrite app_nil_r.
      + rewrite bind_cons, omap_app, app_assoc, <- Hc'. apply IHcs.
    - intros a. cbn. by rewrite app_nil_r. }
  rewrite Hcs. cbn [omap list_omap]. unfold fieldOf at 2.
  destruct (isDisplay c); [done|].
  destruct (truthyKey (key c)); cbn; [|done]. by rewrite <- app_assoc.
Qed.

Lemma extractFields_preorder cs acc :
  extractFields cs acc = acc ++ omap fieldOf (preorder cs).
Proof.
  unfold extractFields, preorder. revert acc.
  induction cs as [|c cs IH]; intros acc; cbn [foldl].
  - cbn. by rewrite app_nil_r.
  - rewrite IH, extractNode_preorder, bind_cons, omap_app. by rewrite app_assoc.
Qed.

End schema_props.

Section enrich_props.
Import Enrich.
Implicit Types (rules : gmap string FieldCell) (n : Comp).

Lemma toRule_cellOfRow r : toRule r = Codec.cellOfRow r.
Proof. done. Qed.

(** [rules.set] overwrites: the rule of a field is derived from the last
    row that names it. *)
Lemma rulesOf_lookup rs x :
  rulesOf rs !! x = toRule <$> last (rowsFor x rs).
Proof.
  unfold rulesOf, rowsFor.
  induction rs as [|r rs IH] using rev_ind; [done|].
  rewrite foldl_app, filter_app. cbn [foldl].
  destruct (decide (field_name r = x)) as [Hx|Hx].
  - rewrite (filter_cons_True (λ r, field_name r = x) r [] Hx).
    rewrite filter_nil, last_snoc, Hx. by rewrite lookup_insert_eq.
  - rewrite (filter_cons_False (λ r, field_name r = x) r [] Hx).
    rewrite filter_nil, app_nil_r. by rewrite lookup_insert_ne.
Qed.

Lemma transformNode_unfold rules n :
  transformNode rules n =
  if bool_decide (mode <$> ruleFor rules n = Some hidden) then None
  else Some (applyFlags (ruleFor rules n)
               (setComponents n (transform rules <$> components n))).
Proof.
  assert (Hloop : ∀ cs,
    (fix loop (cs : list Comp) : list Comp :=
       match cs with
       | [] => []
       | c :: cs' =>
           match transformNode rules c with
           | Some c' => c' :: loop cs'
           | None => loop cs'
           end
       end) cs = transform rules cs).
  { induction cs as [|c cs IH]; [done|]. cbn. by rewrite IH. }
  destruct n as [k t l x d v [cs|]]; cbn [transformNode components].
  - by rewrite Hloop.
  - done.
Qed.

Lemma key_applyFlags rule n : key (applyFlags rule n) = key n.
Proof. by destruct rule as [[[] ?]|]. Qed.

Lemma components_applyFlags rule n :
  components (applyFlags rule n) = components n.
Proof. by destruct rule as [[[] ?]|]. Qed.

Lemma ruleFor_key rules n k :
  key n = Some k → k ≠ "" → ruleFor rules n = rules !! k.
Proof.
  intros Hk Hne. unfold ruleFor, truthyKey. rewrite Hk.
  by rewrite bool_decide_eq_false_2.
Qed.

Lemma preorder_omap (f : Comp → option Comp) cs :
  preorder (omap f cs) = cs ≫= (λ c, from_option preorderNode [] (f c)).
Proof.
  unfold preorder. induction cs as [|c cs IH]; [done|].
  rewrite bind_cons, <- IH. cbn. by destruct (f c).
Qed.

Lemma transformNode_hidden rules n x :
  x ≠ "" → mode <$> rules !! x = Some hidden → key n = Some x →
  transformNode rules n = None.
Proof.
  intros Hne Hx Hk. rewrite transformNode_unfold, (ruleFor_key _ _ x) by done.
  by rewrite bool_decide_eq_true_2.
Qed.

Lemma preorder_transform_Forall (Q : Comp → Prop) rules cs :
  Forall (λ c, Forall Q (from_option preorderNode [] (transformNode rules c))) cs →
  Forall Q (preorder (transform rules cs)).
Proof.
  unfold transform. rewrite preorder_omap.
  induction 1 as [|c cs Hc _ IHcs]; [constructor|].
  rewrite bind_cons. by apply Forall_app.
Qed.

Lemma transformNode_visible rules n rule :
  ruleFor rules n = Some rule → mode rule ≠ hidden →
  transformNode rules n =
  Some (applyFlags (Some rule)
          (setComponents n (transform rules <$> components n))).
Proof.
  intros Hrule Hmode. rewrite transformNode_unfold, Hrule.
  rewrite bool_decide_eq_false_2; [done|].
  cbn [fmap option_fmap option_map]. by intros [= ?].
Qed.

Lemma transformNode_keys rules x n :
  x ≠ "" → mode <$> rules !! x = Some hidden →
  Forall (λ m, key m ≠ Some x)
         (from_option preorderNode [] (transformNode rules n)).
Proof.
  intros Hne Hx. induction n as [k t l y d v ocs IH] using Comp_tree_ind.
  set (n := mkComp k t l y d v ocs).
  destruct (transformNode rules n) as [nn|] eqn:Hnn; [|constructor].
  cbn [from_option]. rewrite preorderNode_unfold.
  destruct (decide (key n = Some x)) as [Hk|Hk].
  { by rewrite (transformNode_hidden _ _ x) in Hnn. }
  rewrite transformNode_unfold in Hnn. case_bool_decide; [done|].
  simplify_eq. constructor.
  - by rewrite key_applyFlags.
  - rewrite components_applyFlags. subst n. cbn [setComponents components].
    destruct ocs as [cs|]; cbn; [|constructor].
    by apply preorder_transform_Forall.
Qed.

Lemma transform_keys rules x cs :
  x ≠ "" → mode <$> rules !! x = Some hidden →
  Forall (λ m, key m ≠ Some x) (preorder (transform rules cs)).
Proof.
  intros Hne Hx. apply preorder_transform_Forall, Forall_forall.
  intros c _. by apply transformNode_keys.
Qed.

End enrich_props.

Section resolver_props.
Import Resolver.

Lemma existsb_fmap {A B} (g : A → B) (p : B → bool) (l : list A) :
  existsb p (g <$> l) = existsb (p ∘ g) l.
Proof. induction l as [|a l IH]; [done|]. cbn. by rewrite IH. Qed.

(** [Array.prototype.find] returns the first element that satisfies the
    predicate. *)
Lemma find_first {A} (p : A → bool) (l : list A) (b : A) :
  find p l = Some b ↔
  ∃ pre post, l = pre ++ b :: post ∧ Forall (λ y, p y = false) pre ∧ p b = true.
Proof.
  induction l as [|a l IH]; cbn.
  - split; [done|]. by intros ([|??] & ? & ? & _).
  - destruct (p a) eqn:Ha.
    + split.
      * intros [= ->]. exists [], l. by repeat split.
      * intros ([|a' pre] & post & Heq & Hpre & Hb); simplify_eq/=; [done|].
        apply Forall_cons in Hpre as [? _]. congruence.
    + rewrite IH. split.
      * intros (pre & post & -> & Hpre & Hb).
        exists (a :: pre), post. repeat split; [|done]. by constructor.
      * intros ([|a' pre] & post & Heq & Hpre & Hb); simplify_eq/=; [congruence|].
        apply Forall_cons in Hpre as [_ Hpre]. eauto.
Qed.

Lemma find_none_iff {A} (p : A → bool) (l : list A) :
  find p l = None ↔ Forall (λ y, p y = false) l.
Proof.
  induction l as [|a l IH]; cbn; [by split; [constructor|]|].
  destruct (p a) eqn:Ha.
  - split; [done|]. intros [? _]%Forall_cons. congruence.
  - rewrite IH. split; [by constructor|by intros [_ ?]%Forall_cons].
Qed.

End resolver_props.


(** * The behavior matrix: completion and overlay *)

Section matrix_claims.
Import Matrix.




End matrix_claims.

(** * The matrix/bundle codec *)

Section codec_claims.
Import Codec.

(** C9 — where the forward codec synthesizes rows.  For a state that names a
    member of [Object.prototype], [byState?.[state]] is the inherited member
    for every field whose row has no own cell under that name, and the loop
    pushes a visible, not required [view] row for it.  The matrix with the
    single field ["name"], which has cells for ["entry"] and ["approve"]
    only, gets a row in the bundle of the state ["constructor"]. *)
Theorem bundlesFromMatrix_inherited_state :
  cellAt Examples.loaded "name" "constructor" = None
  ∧ bundlesFromMatrix Examples.loaded ["constructor"] =
    [ mkBundle "constructor" view
        [ mkRow "name" view (Some true) (Some false) ] ].
Proof. split; by vm_compute. Qed.


(** C1, as the code has it — for a matrix whose field keys, and a state list
    whose states, are not names of members of [Object.prototype], the round
    trip returns a matrix that has, at every pair of [M] whose state is in
    [S], a cell with the mode of the original and with its [required] flag,
    except that an original cell whose mode is not editable (readonly or
    hidden) and whose [required] is true comes back with [required = false];
    in particular, if every cell of [M] satisfies [mode = editable] or
    [required = false], the round trip restores exactly the cells of [M] at
    the states of [S], and no other cell. *)
Theorem codec_roundtrip (M : BehaviorMatrixValue) (S : list string) :
  Forall ordinary (keys M) →
  Forall ordinary S →
  ∃ RT, matrixFromBundles (bundlesFromMatrix M S) = Returns RT
    ∧ (∀ f s c, s ∈ S → cellAt M f s = Some c →
         ∃ c', cellAt RT f s = Some c'
               ∧ mode c' = mode c
               ∧ required c' =
                   if bool_decide (mode c = editable) then required c else false)
    ∧ ((∀ f s c, cellAt M f s = Some c → mode c = editable ∨ required c = false) →
       ∀ f s, cellAt RT f s = if bool_decide (s ∈ S) then cellAt M f s else None).
Proof.
  intros HM HS. eexists. split.
  { apply matrixFromBundles_bundlesFromMatrix_Returns; [|done].
    by apply keys_ordinary. }
  split.
  - intros f s c Hs Hc. exists (coerce c).
    rewrite cellAt_roundtrip, decide_True, Hc by done.
    repeat split. cbn. destruct (required c), (bool_decide _); done.
  - intros Hok f s. rewrite cellAt_roundtrip by done.
    destruct (decide (s ∈ S)) as [Hs|Hs].
    + rewrite bool_decide_eq_true_2 by done.
      destruct (cellAt M f s) as [c|] eqn:Hc; [|done]. cbn.
      by rewrite coerce_id by eauto.
    + by rewrite bool_decide_eq_false_2.
Qed.

End codec_claims.

(** A hidden cell flagged required satisfies [mode ≠ readonly], and yet does
    not survive the round trip: it comes back with [required = false]. *)
Lemma codec_roundtrip_loses_hidden_required :
  (∀ f s c, cellAt Examples.hiddenRequired f s = Some c →
            mode c ≠ readonly ∨ required c = false)
  ∧ cellAt Examples.hiddenRequired "f" "s" = Some (mkCell hidden true)
  ∧ ∃ RT, Codec.matrixFromBundles
            (Codec.bundlesFromMatrix Examples.hiddenRequired ["s"]) = Returns RT
      ∧ cellAt RT "f" "s" = Some (mkCell hidden false)
      ∧ cellAt RT "f" "s" ≠ cellAt Examples.hiddenRequired "f" "s".
Proof.
  split; [|split].
  - intros f s c. unfold cellAt, Examples.hiddenRequired.
    intros (row & [_ <-]%lookup_singleton_Some & [_ <-]%lookup_singleton_Some)%bind_Some.
    by left.
  - vm_compute. reflexivity.
  - eexists. split; [vm_compute; reflexivity|]. split.
    + vm_compute. reflexivity.
    + vm_compute. discriminate.
Qed.

Lemma codec_roundtrip_witness :
  ∃ RT, Codec.matrixFromBundles
          (Codec.bundlesFromMatrix Examples.loaded ["entry"]) = Returns RT
    ∧ cellAt RT "name" "entry" = Some (mkCell readonly false)
    ∧ cellAt RT "name" "approve" = None.
Proof.
  assert (Hok : ∀ f s c, cellAt Examples.loaded f s = Some c →
                         mode c = editable ∨ required c = false).
  { intros f s c. unfold cellAt, Examples.loaded.
    intros (row & [_ <-]%lookup_singleton_Some & Hc)%bind_Some.
    apply lookup_insert_Some in Hc as [[_ <-]|[_ [_ <-]%lookup_singleton_Some]];
      by right. }
  destruct (codec_roundtrip Examples.loaded ["entry"]) as (RT & HRT & _ & Hcells).
  - apply (bool_decide_unpack _). vm_compute. exact I.
  - apply (bool_decide_unpack _). vm_compute. exact I.
  - exists RT. split; [exact HRT|]. split.
    + exact (Hcells Hok "name" "entry").
    + exact (Hcells Hok "name" "approve").
Defined.

(** * The read-only resolver *)

Section resolver_claims.
Import Resolver.

(** C4 — entry-state bootstrap: the read-only flag is true exactly when the
    bundle resolved for the state (the first bundle of the list with that
    state, when there is one) has action [view], or no cell of the matrix for
    that state is editable and the state is not ["entry"]; with no bundle and
    an empty matrix, the flag is false for ["entry"] and true for
    ["approve"]. *)
Theorem readOnly_entry_bootstrap :
  (∀ (bundles : list BehaviorBundle) (matrix : BehaviorMatrixValue) (st : string),
     readOnly bundles matrix st = true ↔
       (∃ pre b post, bundles = pre ++ b :: post
                      ∧ Forall (λ b', state b' ≠ st) pre
                      ∧ state b = st ∧ action b = view)
       ∨ ((∀ f c, cellAt matrix f st = Some c → mode c ≠ editable)
          ∧ st ≠ "entry"))
  ∧ readOnly [] ∅ "entry" = false
  ∧ readOnly [] ∅ "approve" = true.
Proof.
  split; [|by vm_compute].
  intros bundles matrix st. unfold readOnly.
  rewrite existsb_fmap, orb_true_iff, andb_true_iff, negb_true_iff.
  rewrite bool_decide_eq_true.
  assert (Hcells : existsb (editableAt st ∘ snd) (map_to_list matrix) = false
                   ↔ ∀ f c, cellAt matrix f st = Some c → mode c ≠ editable).
  { rewrite <- not_true_iff_false.
    change (editableAt st ∘ snd) with (λ e : string * StateRow, editableAt st e.2).
    rewrite anyEditable_cellAt. split.
    - intros Hn f c Hc He. apply Hn. eauto.
    - intros Ha (f & c & Hc & He). by eapply Ha. }
  rewrite Hcells.
  assert (Hfind :
    match find (λ x, bool_decide (state x = st)) bundles with
    | Some b => bool_decide (action b = view)
    | None => false
    end = true ↔
    ∃ pre b post, bundles = pre ++ b :: post
                  ∧ Forall (λ b', state b' ≠ st) pre
                  ∧ state b = st ∧ action b = view).
  { destruct (find _ bundles) as [b|] eqn:Hb.
    - rewrite bool_decide_eq_true. split.
      + intros Hv. apply find_first in Hb as (pre & post & -> & Hpre & Hst).
        exists pre, b, post. apply bool_decide_eq_true in Hst.
        repeat split; [|done..]. eapply Forall_impl; [exact Hpre|].
        intros b' Hb'. by apply bool_decide_eq_false in Hb'.
      + intros (pre & b' & post & -> & Hpre & Hst & Hv).
        assert (find (λ x, bool_decide (state x = st)) (pre ++ b' :: post) = Some b')
          as Hb'; [|congruence].
        apply find_first. exists pre, post. repeat split.
        * eapply Forall_impl; [exact Hpre|]. intros ??. by apply bool_decide_eq_false.
        * by apply bool_decide_eq_true.
    - split; [done|]. intros (pre & b' & post & -> & Hpre & Hst & Hv).
      apply find_none_iff, Forall_app in Hb as [_ [Hb _]%Forall_cons].
      by apply bool_decide_eq_false in Hb. }
  by rewrite Hfind.
Qed.

End resolver_claims.

(** * The field extractor *)

Section extractor_claims.
Import Schema.

(** C8 — extractor skip rule: [extractFields] yields, in pre-order, one Field
    for every node that has a non-empty string key and is not of type
    ["text"] or ["button"]; a ["text"] or ["button"] node yields no Field
    itself and its children are traversed like those of any node; the schema
    with a text node followed by a group that holds the textfield ["a"]
    yields exactly the Field of ["a"]. *)
Theorem extractFields_skip_rule :
  (∀ cs, extractFields cs [] = omap fieldOf (preorder cs))
  ∧ (∀ cs, FieldMeta.key <$> extractFields cs [] =
           omap (λ c, if bool_decide (type c = Some "text" ∨ type c = Some "button")
                      then None
                      else match key c with
                           | Some k => if bool_decide (k = "") then None else Some k
                           | None => None
                           end)
                (preorder cs))
  ∧ extractFields Examples.textThenGroup [] =
      [FieldMeta.mk "a" "a" (Some "textfield")].
Proof.
  split; [|split].
  - intros cs. by rewrite extractFields_preorder.
  - intros cs. rewrite extractFields_preorder. cbn [app].
    rewrite list_fmap_omap. apply list_omap_ext, Forall2_same_length_lookup.
    split; [done|]. intros i c c' Hc Hc'. simplify_eq.
    unfold fieldOf, isDisplay, truthyKey.
    destruct (bool_decide (type c = _ ∨ _)); [done|].
    destruct (key c) as [k|]; [|done]. by destruct (bool_decide (k = "")).
  - by vm_compute.
Qed.

End extractor_claims.

(** * The schema enricher *)

Section enrich_claims.
Import Enrich.

(** C2, as the code has it — when the last row of the bundle that names a
    non-empty field key [x] has [visible = false] (so that the rule derived
    for [x] is Hidden), the enriched schema has no node with key [x] at any
    depth; and a node with key [x] is dropped with its whole subtree: the
    component list that holds it is transformed as if the node and its
    descendants were not there. *)
Theorem enrich_deletes_hidden
    (schema : FormSchema) (bundle : BehaviorBundle) (x : string)
    (r : TaskFieldBehavior) :
  x ≠ "" →
  last (rowsFor x (rows bundle)) = Some r →
  visible r = Some false →
  Forall (λ m, key m ≠ Some x)
    (preorder (default [] (schema_components
                             (enrichFormSchemaForState schema bundle))))
  ∧ ∀ pre n post, key n = Some x →
      transform (rulesOf (rows bundle)) (pre ++ n :: post) =
      transform (rulesOf (rows bundle)) (pre ++ post).
Proof.
  intros Hne Hlast Hvis.
  assert (Hx : mode <$> rulesOf (rows bundle) !! x = Some hidden).
  { rewrite rulesOf_lookup, Hlast. cbn. unfold toRule. by rewrite Hvis. }
  split.
  - cbn. by apply transform_keys.
  - intros pre n post Hk. unfold transform. rewrite !omap_app. cbn.
    by rewrite (transformNode_hidden _ _ x).
Qed.

(** C3, as the code has it — a node with a non-empty key whose rule (from
    the last row of the bundle that names the key) is not Hidden is emitted,
    with its key, in the place of the node; under [update] or [create] the
    emitted node has [disabled = false] and a validate object, created when
    the node had none, whose [required] is the row's flag; under [view] it
    has [disabled = true] and, when the node declares a validate object,
    [validate.required = false], whatever the row's flag. *)
Theorem enrich_sets_flags
    (bundle : BehaviorBundle) (n : Comp) (k : string) (r : TaskFieldBehavior) :
  key n = Some k →
  k ≠ "" →
  last (rowsFor k (rows bundle)) = Some r →
  visible r ≠ Some false →
  ∃ nn, transformNode (rulesOf (rows bundle)) n = Some nn
    ∧ key nn = Some k
    ∧ (∀ pre post,
         transform (rulesOf (rows bundle)) (pre ++ n :: post) =
         transform (rulesOf (rows bundle)) pre
           ++ nn :: transform (rulesOf (rows bundle)) post)
    ∧ (action_context r = update ∨ action_context r = create →
         disabled nn = Some false
         ∧ validate nn = Some {| v_required := Some (truthy (row_required r)) |})
    ∧ (action_context r = view →
         disabled nn = Some true
         ∧ validate nn = (λ _, {| v_required := Some false |}) <$> validate n).
Proof.
  intros Hk Hne Hlast Hvis.
  assert (Hrule : ruleFor (rulesOf (rows bundle)) n = Some (toRule r)).
  { by rewrite (ruleFor_key _ _ k), rulesOf_lookup, Hlast. }
  assert (Hmode : mode (toRule r) ≠ hidden).
  { unfold toRule. cbn. rewrite bool_decide_eq_false_2 by done.
    by case_bool_decide. }
  pose proof (transformNode_visible _ _ _ Hrule Hmode) as Hnn.
  eexists. split; [exact Hnn|]. split; [|split; [|split]].
  - by rewrite key_applyFlags.
  - intros pre post. unfold transform. rewrite omap_app. cbn. by rewrite Hnn.
  - intros Hact. unfold applyFlags, toRule. cbn.
    rewrite (bool_decide_eq_false_2 (visible r = Some false)) by done.
    by rewrite (bool_decide_eq_true_2 (_ ∨ _)) by done.
  - intros Hact. unfold applyFlags, toRule. cbn.
    rewrite (bool_decide_eq_false_2 (visible r = Some false)) by done.
    rewrite (bool_decide_eq_false_2 (_ ∨ _)); [|rewrite Hact; by intros [|]].
    cbn. by destruct (validate n).
Qed.

End enrich_claims.

Lemma enrich_deletes_hidden_witness :
  Forall (λ m, key m ≠ Some "x")
    (preorder (default [] (schema_components
       (Enrich.enrichFormSchemaForState Examples.nested Examples.hideX))))
  ∧ ∀ pre n post, key n = Some "x" →
      Enrich.transform (Enrich.rulesOf (rows Examples.hideX)) (pre ++ n :: post) =
      Enrich.transform (Enrich.rulesOf (rows Examples.hideX)) (pre ++ post).
Proof.
  apply (enrich_deletes_hidden Examples.nested Examples.hideX "x"
           (mkRow "x" view (Some false) (Some false))).
  - discriminate.
  - reflexivity.
  - reflexivity.
Defined.

(** A bundle with a hidden row for ["x"] followed by an editable row for
    ["x"] keeps the node ["x"]; a bundle with a hidden row for the empty key
    keeps the node whose key is empty. *)
Lemma enrich_keeps_overridden_and_empty_key :
  (mkRow "x" view (Some false) (Some false) ∈ rows Examples.hideThenEditX
   ∧ key <$> preorder (default [] (schema_components
        (Enrich.enrichFormSchemaForState Examples.nested Examples.hideThenEditX)))
     = [None; None; None; Some "x"; Some "y"])
  ∧ (mkRow "" view (Some false) (Some false) ∈ rows Examples.hideEmpty
     ∧ key <$> preorder (default [] (schema_components
          (Enrich.enrichFormSchemaForState Examples.emptyKeySchema Examples.hideEmpty)))
       = [Some ""]).
Proof.
  split; (split; [apply list_elem_of_here|by vm_compute]).
Qed.

Lemma enrich_sets_flags_witness :
  (∃ nn, Enrich.transformNode (Enrich.rulesOf (rows Examples.editY)) Examples.declaredY
           = Some nn
     ∧ disabled nn = Some false
     ∧ validate nn = Some {| v_required := Some true |})
  ∧ (∃ nn, Enrich.transformNode (Enrich.rulesOf (rows Examples.viewY)) Examples.declaredY
             = Some nn
       ∧ disabled nn = Some true
       ∧ validate nn = Some {| v_required := Some false |}).
Proof.
  split.
  - destruct (enrich_sets_flags Examples.editY Examples.declaredY "y"
                (mkRow "y" update (Some true) (Some true)))
      as (nn & Hnn & _ & _ & Hedit & _);
      [reflexivity|discriminate|reflexivity|discriminate|].
    exists nn. split; [exact Hnn|]. apply Hedit. left. reflexivity.
  - destruct (enrich_sets_flags Examples.viewY Examples.declaredY "y"
                (mkRow "y" view (Some true) (Some true)))
      as (nn & Hnn & _ & _ & _ & Hview);
      [reflexivity|discriminate|reflexivity|discriminate|].
    exists nn. split; [exact Hnn|]. apply Hview. reflexivity.
Defined.

(** A row for the empty key derives an Editable rule, and the node whose key
    is empty is emitted as it is: no [disabled], no [validate]. *)
Lemma enrich_ignores_rule_of_empty_key :
  Enrich.rulesOf (rows Examples.editEmpty) !! "" = Some (mkCell editable true)
  ∧ key (Examples.leaf "") = Some ""
  ∧ Enrich.transformNode (Enrich.rulesOf (rows Examples.editEmpty)) (Examples.leaf "")
    = Some (Examples.leaf "")
  ∧ disabled (Examples.leaf "") = None
  ∧ validate (Examples.leaf "") = None.
Proof. repeat split; by vm_compute. Qed.

(** * Sample runs *)

Example trim_label : Schema.trim "  First name " = "First name".
Proof. reflexivity. Qed.

Example bundles_of_loaded :
  Codec.bundlesFromMatrix Examples.loaded ["entry"; "approve"; "archive"] =
  [ mkBundle "entry" view [ mkRow "name" view (Some true) (Some false) ];
    mkBundle "approve" view [ mkRow "name" view (Some false) (Some false) ];
    mkBundle "archive" view [] ].
Proof. by vm_compute. Qed.

Example bundles_of_edited :
  Codec.bundlesFromMatrix Examples.edited ["entry"] =
  [ mkBundle "entry" update [ mkRow "name" update (Some true) (Some true) ] ].
Proof. by vm_compute. Qed.

Example matrix_of_bundles_roundtrip :
  Codec.matrixFromBundles
    (Codec.bundlesFromMatrix Examples.loaded ["entry"; "approve"])
  = Returns Examples.loaded.
Proof. by vm_compute. Qed.

Example enrich_nested_hideX :
  Enrich.enrichFormSchemaForState Examples.nested Examples.hideX =
  mkSchema (Some "default")
    (Some [ Examples.group [ Examples.group [ Examples.group
              [ Examples.leaf "y" ] ] ] ]).
Proof. by vm_compute. Qed.

Example enrich_declaredY_view :
  Enrich.transform (Enrich.rulesOf (rows Examples.viewY)) [ Examples.declaredY ] =
  [ mkComp (Some "y") (Some "textfield") (Some "Y") None (Some true)
           (Some {| v_required := Some false |}) None ].
Proof. by vm_compute. Qed.

Example readOnly_of_edited :
  Resolver.readOnly (Codec.bundlesFromMatrix Examples.edited ["entry"; "approve"])
                    Examples.edited "entry" = false
  ∧ Resolver.readOnly (Codec.bundlesFromMatrix Examples.edited ["entry"; "approve"])
                      Examples.edited "approve" = true.
Proof. by vm_compute. Qed.

(** * Further properties of the codec *)

Section codec_more.
Import Codec.

Lemma flatRows_nil bundles :
  flatRows bundles = [] ↔ Forall (λ b, rows b = []) bundles.
Proof.
  unfold flatRows. induction bundles as [|b bundles IH]; [by split|].
  rewrite bind_cons, Forall_cons, <- IH. split.
  - intros [Hb ?]%app_eq_nil. split; [|done]. by destruct (rows b).
  - intros [-> ->]. done.
Qed.

(** The rows of the matrix a loop of insertions builds: a field has a row
    exactly when the start matrix had one or a tagged row names it. *)
Lemma foldl_putRow_fields (l : list (string * TaskFieldBehavior)) f :
  match foldl (λ m e, Dict.putRow e.1 m e.2) ∅ l !! f with
  | Some row => row ≠ ∅ ∧ ∃ e, e ∈ l ∧ field_name e.2 = f
  | None => ∀ e, e ∈ l → field_name e.2 ≠ f
  end.
Proof.
  induction l as [|[st r] l IH] using rev_ind.
  - cbn. rewrite lookup_empty. by intros e ?%not_elem_of_nil.
  - rewrite foldl_app. cbn [foldl fst snd]. unfold Dict.putRow at 1.
    destruct (decide (field_name r = f)) as [<-|Hne].
    + rewrite lookup_insert_eq. split; [apply insert_non_empty|].
      exists (st, r). split; [|done]. apply elem_of_app. right. by left.
    + rewrite lookup_insert_ne by done.
      destruct (foldl _ _ l !! f) as [row|].
      * destruct IH as [? (e & ? & ?)]. split; [done|].
        exists e. split; [|done]. apply elem_of_app. by left.
      * intros e [?|He]%elem_of_app; [by apply IH|].
        apply list_elem_of_singleton in He as ->. done.
Qed.

Lemma cellOfRow_normal r :
  mode (cellOfRow r) = editable ∨ required (cellOfRow r) = false.
Proof.
  unfold cellOfRow. cbn [mode required].
  destruct (bool_decide (visible r = Some false)); [by right|].
  destruct (bool_decide (_ ∨ _)); [by left|by right].
Qed.

Lemma cellAt_matrixFromBundles_normal bundles f s c :
  cellAt (Dict.matrixFromBundles bundles) f s = Some c →
  mode c = editable ∨ required c = false.
Proof.
  rewrite cellAt_matrixFromBundles.
  destruct (last _) as [[st r]|]; [|done]. cbn. intros [= <-].
  apply cellOfRow_normal.
Qed.

(** What the decoder returns has field keys that no object inherits. *)
Lemma matrixFromBundles_keys bundles m :
  matrixFromBundles bundles = Returns m → Forall ordinary (keys m).
Proof.
  intros Hm. assert (Hok : ∃ m, matrixFromBundles bundles = Returns m) by eauto.
  rewrite matrixFromBundles_Returns_iff in Hok.
  apply matrixFromBundles_inv in Hm as ->.
  unfold keys. apply Forall_forall. intros f ([f' row] & -> & Hin)%list_elem_of_fmap.
  apply elem_of_map_to_list in Hin. cbn.
  pose proof (foldl_putRow_fields (flatRows bundles) f') as H.
  unfold Dict.matrixFromBundles in Hin. rewrite matrixFromBundles_foldl in Hin.
  rewrite Hin in H. destruct H as [_ ([st r] & He & <-)].
  by apply (Hok st r).
Qed.

(** X1 — the inverse codec invents no field: in the matrix
    [matrixFromBundles bundles] returns, a field key has a row exactly when
    some row of some bundle names it, that row of the matrix is never empty,
    and the matrix is empty exactly when no bundle has a row (an empty bundle
    list, or bundles whose row lists are all empty). *)
Theorem matrixFromBundles_fields
    (bundles : list BehaviorBundle) (m : BehaviorMatrixValue) :
  matrixFromBundles bundles = Returns m →
  (∀ f, is_Some (m !! f) ↔
        ∃ b r, b ∈ bundles ∧ r ∈ rows b ∧ field_name r = f)
  ∧ (∀ f row, m !! f = Some row → row ≠ ∅)
  ∧ (m = ∅ ↔ Forall (λ b, rows b = []) bundles).
Proof.
  intros ->%matrixFromBundles_inv.
  unfold Dict.matrixFromBundles. rewrite matrixFromBundles_foldl.
  split; [|split].
  - intros f. pose proof (foldl_putRow_fields (flatRows bundles) f) as H.
    destruct (foldl _ _ _ !! f) as [row|]; split.
    + intros _. destruct H as [_ ([st r] & (b & ? & ? & ?)%elem_of_flatRows & ?)].
      eauto.
    + done.
    + by intros [??].
    + intros (b & r & Hb & Hr & Hf). exfalso.
      apply (H (state b, r)); [|done]. apply elem_of_flatRows. eauto.
  - intros f row Hrow.
    pose proof (foldl_putRow_fields (flatRows bundles) f) as H.
    rewrite Hrow in H. by destruct H.
  - rewrite <- flatRows_nil. split.
    + intros Hempty. destruct (flatRows bundles) as [|e l] eqn:Hl; [done|].
      pose proof (foldl_putRow_fields (flatRows bundles) (field_name e.2)) as H.
      rewrite Hl in H. rewrite Hempty, lookup_empty in H.
      exfalso. apply (H e); [by left|done].
    + by intros ->.
Qed.

(** X2 — a decoded matrix survives the round trip exactly: for a matrix the
    decoder returned and a state list [S] of names that are not names of
    members of [Object.prototype], encoding the matrix for [S] and decoding
    again returns a matrix that has each of its cells at a state of [S],
    [required] flag included, and nothing else. *)
Theorem decoded_matrix_roundtrips
    (bundles : list BehaviorBundle) (S : list string) (m : BehaviorMatrixValue) :
  matrixFromBundles bundles = Returns m →
  Forall ordinary S →
  ∃ m', matrixFromBundles (bundlesFromMatrix m S) = Returns m'
    ∧ ∀ f s, cellAt m' f s = if bool_decide (s ∈ S) then cellAt m f s else None.
Proof.
  intros Hm HS. eexists. split.
  { apply matrixFromBundles_bundlesFromMatrix_Returns; [|done].
    by eapply keys_ordinary, matrixFromBundles_keys. }
  apply matrixFromBundles_inv in Hm as ->. intros f s.
  rewrite cellAt_roundtrip by done. destruct (decide (s ∈ S)) as [Hs|Hs].
  - rewrite bool_decide_eq_true_2 by done.
    destruct (cellAt (Dict.matrixFromBundles bundles) f s) as [c|] eqn:Hc; [|done].
    cbn. rewrite coerce_id; [done|]. by eapply cellAt_matrixFromBundles_normal.
  - by rewrite bool_decide_eq_false_2.
Qed.

(** X3 — what the forward codec never emits: no bundle and no row of
    [bundlesFromMatrix M S] carries [create]; every row has both [visible]
    and [required] set; a row is required only under [update], an [update]
    row is visible, and a bundle with an [update] row has action [update]. *)
Theorem bundlesFromMatrix_rows_normal
    (M : BehaviorMatrixValue) (S : list string)
    (b : BehaviorBundle) (r : TaskFieldBehavior) :
  b ∈ bundlesFromMatrix M S →
  r ∈ rows b →
  action b ≠ create
  ∧ action_context r ≠ create
  ∧ is_Some (visible r) ∧ is_Some (row_required r)
  ∧ (row_required r = Some true → action_context r = update)
  ∧ (action_context r = update → visible r = Some true ∧ action b = update).
Proof.
  rewrite bundlesFromMatrix_fmap.
  intros (s & -> & _)%list_elem_of_fmap
         (row & Hrow & Hr)%elem_of_rows_bundleOfState_gen.
  rewrite action_bundleOfState.
  assert (Hact : (if existsb (λ e, editableAt s e.2) (map_to_list M)
                  then update else view) ≠ create).
  { by destruct (existsb _ _). }
  unfold rowAt in Hr. cbn [fst snd] in Hr.
  destruct (member row s) as [c| |] eqn:Hc; [| |done].
  - apply member_Own in Hc.
    assert (Hupd : mode c = editable →
                   existsb (λ e, editableAt s e.2) (map_to_list M) = true).
    { intros He. apply anyEditable_cellAt. exists (field_name r), c.
      split; [|done]. unfold cellAt. by rewrite Hrow. }
    injection Hr as <-.
    destruct c as [[] req]; cbn in *;
      (split; [done|]);
      (split; [done|]); (split; [by eexists|]); (split; [by eexists|]);
      (split; [by destruct req|]); try done.
    intros _. by rewrite Hupd.
  - injection Hr as <-. cbn.
    split; [done|]. split; [done|]. split; [by eexists|].
    split; [by eexists|]. by split.
Qed.

(** X24 — the shape of the forward codec: [bundlesFromMatrix M S] has one
    bundle per state of [S], in the order of [S]; the bundle of a state has
    at most one row per field of the matrix, in the order of the fields; for
    a state that is not the name of a member of [Object.prototype] these are
    the rows derived from the own cells, one per field that has a cell for
    the state and none for a field without one; for a state that is such a
    name, every field has a row; and the action of a bundle is [update]
    exactly when a field has an editable own cell for its state, and [view]
    otherwise. *)
Theorem bundlesFromMatrix_shape (M : BehaviorMatrixValue) (S : list string) :
  state <$> bundlesFromMatrix M S = S
  ∧ ∀ b, b ∈ bundlesFromMatrix M S →
      rows b = omap (rowAt (state b)) (map_to_list M)
      ∧ NoDup (field_name <$> rows b)
      ∧ (ordinary (state b) →
           (∀ r, r ∈ rows b ↔
                 ∃ c, cellAt M (field_name r) (state b) = Some c
                      ∧ r = rowOfCell (field_name r) c)
           ∧ (∀ f, cellAt M f (state b) = None → f ∉ field_name <$> rows b))
      ∧ (¬ ordinary (state b) → field_name <$> rows b = keys M)
      ∧ (action b = update ↔
           ∃ f c, cellAt M f (state b) = Some c ∧ mode c = editable)
      ∧ (action b = update ∨ action b = view).
Proof.
  split; [apply state_bundlesFromMatrix|].
  rewrite bundlesFromMatrix_fmap.
  intros b (s & -> & _)%list_elem_of_fmap.
  change (state (bundleOfState M s)) with s.
  split; [apply rows_bundleOfState|]. split; [apply field_names_NoDup|].
  split; [|split; [|split]].
  - intros Hs. split.
    + intros r. by apply elem_of_rows_bundleOfState.
    + intros f Hf (r & -> & Hr)%list_elem_of_fmap.
      apply elem_of_rows_bundleOfState in Hr as (c & Hc & _); [|done].
      congruence.
  - intros Hs. rewrite rows_bundleOfState. unfold keys.
    induction (map_to_list M) as [|e l IH]; [done|].
    cbn. unfold rowAt at 1, member.
    assert (inherited s = true) as ->.
    { destruct (inherited s) eqn:Hi; [done|]. by apply ordinary_inherited in Hi. }
    destruct (e.2 !! s); cbn; by rewrite IH.
  - rewrite action_bundleOfState, <- anyEditable_cellAt.
    by destruct (existsb _ _).
  - rewrite action_bundleOfState. destruct (existsb _ _); eauto.
Qed.

(** X25 — duplicate rows in the inverse codec: [matrixFromBundles] runs
    among own properties and returns a matrix exactly when no row names a
    field after a member of [Object.prototype] and no bundle that has rows is
    for the state [__proto__]; a cell of the matrix it returns is the one
    derived from the last row, in iteration order over bundles and then rows,
    that addresses its (field, state) pair, and stays absent when no row
    does; and in every cell of that matrix [required = true] implies
    [mode = editable]. *)
Theorem matrixFromBundles_last_row_wins (bundles : list BehaviorBundle) :
  ((∃ m, matrixFromBundles bundles = Returns m) ↔
   ∀ b r, b ∈ bundles → r ∈ rows b →
          ordinary (field_name r) ∧ state b ≠ "__proto__")
  ∧ ∀ m, matrixFromBundles bundles = Returns m →
      ∀ f s,
        cellAt m f s =
          cellOfRow ∘ snd <$> last (filter (addresses f s) (flatRows bundles))
        ∧ ∀ c, cellAt m f s = Some c → required c = true → mode c = editable.
Proof.
  split.
  - rewrite matrixFromBundles_Returns_iff. split.
    + intros H b r Hb Hr. apply (H (state b) r), elem_of_flatRows. eauto.
    + intros H st r (b & Hb & <- & Hr)%elem_of_flatRows. by apply H.
  - intros m ->%matrixFromBundles_inv f s.
    split; [apply cellAt_matrixFromBundles|].
    intros c Hc. destruct (cellAt_matrixFromBundles_normal _ _ _ _ Hc); congruence.
Qed.

End codec_more.

Lemma matrixFromBundles_fields_witness :
  (∀ f, is_Some (Examples.loaded !! f) ↔
        ∃ b r, b ∈ Codec.bundlesFromMatrix Examples.loaded ["entry"; "approve"]
               ∧ r ∈ rows b ∧ field_name r = f)
  ∧ (∀ f row, Examples.loaded !! f = Some row → row ≠ ∅)
  ∧ (Examples.loaded = ∅ ↔
     Forall (λ b, rows b = [])
            (Codec.bundlesFromMatrix Examples.loaded ["entry"; "approve"])).
Proof.
  apply (matrixFromBundles_fields
           (Codec.bundlesFromMatrix Examples.loaded ["entry"; "approve"])
           Examples.loaded).
  vm_compute. reflexivity.
Defined.

Lemma decoded_matrix_roundtrips_witness :
  ∃ m', Codec.matrixFromBundles
          (Codec.bundlesFromMatrix Examples.loaded ["entry"]) = Returns m'
    ∧ ∀ f s, cellAt m' f s =
             if bool_decide (s ∈ ["entry"]) then cellAt Examples.loaded f s else None.
Proof.
  apply (decoded_matrix_roundtrips
           (Codec.bundlesFromMatrix Examples.loaded ["entry"; "approve"])
           ["entry"] Examples.loaded).
  - vm_compute. reflexivity.
  - apply (bool_decide_unpack _). vm_compute. exact I.
Defined.

Lemma bundlesFromMatrix_rows_normal_witness :
  action (Codec.bundleOfState Examples.edited "entry") ≠ create
  ∧ action_context (mkRow "name" update (Some true) (Some true)) ≠ create
  ∧ is_Some (Some true) ∧ is_Some (Some true)
  ∧ (Some true = Some true → update = update)
  ∧ (update = update →
     Some true = Some true
     ∧ action (Codec.bundleOfState Examples.edited "entry") = update).
Proof.
  apply (bundlesFromMatrix_rows_normal Examples.edited ["entry"]
           (Codec.bundleOfState Examples.edited "entry")
           (mkRow "name" update (Some true) (Some true))).
  - vm_compute. apply list_elem_of_here.
  - vm_compute. apply list_elem_of_here.
Defined.

Lemma bundlesFromMatrix_shape_witness :
  state <$> Codec.bundlesFromMatrix Examples.edited ["entry"; "toString"]
    = ["entry"; "toString"]
  ∧ field_name <$> rows (Codec.bundleOfState Examples.edited "toString")
    = keys Examples.edited.
Proof.
  destruct (bundlesFromMatrix_shape Examples.edited ["entry"; "toString"])
    as [Hstates Hb].
  split; [exact Hstates|].
  destruct (Hb (Codec.bundleOfState Examples.edited "toString"))
    as (_ & _ & _ & Hall & _).
  - vm_compute. apply list_elem_of_further, list_elem_of_here.
  - apply Hall. intros Ho. apply Ho. vm_compute.
    do 6 apply list_elem_of_further. apply list_elem_of_here.
Defined.

Lemma matrixFromBundles_last_row_wins_witness :
  ∃ m, Codec.matrixFromBundles [Examples.hideThenEditX] = Returns m
    ∧ cellAt m "x" "review" = Some (mkCell editable false).
Proof.
  destruct (matrixFromBundles_last_row_wins [Examples.hideThenEditX])
    as [Hret Hcells].
  destruct (proj2 Hret) as [m Hm].
  - intros b r ->%list_elem_of_singleton Hr. split; [|discriminate].
    cbn in Hr. apply elem_of_cons in Hr as [->|Hr].
    + apply (bool_decide_unpack _). vm_compute. exact I.
    + apply list_elem_of_singleton in Hr as ->.
      apply (bool_decide_unpack _). vm_compute. exact I.
  - exists m. split; [exact Hm|].
    exact (proj1 (Hcells m Hm "x" "review")).
Defined.
(** * Further properties of the enricher *)

Section enrich_more.
Import Enrich.
Implicit Types (rules : gmap string FieldCell) (n : Comp).

Lemma ruleFor_applyFlags rules rule n :
  ruleFor rules (applyFlags rule n) = ruleFor rules n.
Proof. unfold ruleFor. by rewrite key_applyFlags. Qed.

Lemma identityOf_applyFlags rule n :
  identityOf (applyFlags rule n) = identityOf n.
Proof. by destruct rule as [[[] ?]|]. Qed.

Lemma applyFlags_idemp rule n :
  applyFlags rule (applyFlags rule n) = applyFlags rule n.
Proof. destruct rule as [[[] ?]|]; cbn; try done. by destruct (validate n). Qed.

Lemma setComponents_applyFlags rule n cs :
  setComponents (applyFlags rule n) cs = applyFlags rule (setComponents n cs).
Proof. by destruct rule as [[[] ?]|]. Qed.

Lemma setComponents_components n : setComponents n (components n) = n.
Proof. by destruct n. Qed.

Lemma survivorsNode_unfold rules n :
  survivorsNode rules n =
  if bool_decide (mode <$> ruleFor rules n = Some hidden) then []
  else n :: survivors rules (default [] (components n)).
Proof. by destruct n as [k t l x d v [cs|]]. Qed.

(** The nodes the enricher emits for one node are its survivors, flags
    apart. *)
Lemma transformNode_survivors rules n :
  identityOf <$> from_option preorderNode [] (transformNode rules n) =
  identityOf <$> survivorsNode rules n.
Proof.
  induction n as [k t l y d v ocs IH] using Comp_tree_ind.
  set (n := mkComp k t l y d v ocs).
  rewrite transformNode_unfold, survivorsNode_unfold.
  destruct (bool_decide _); [done|].
  cbn [from_option]. rewrite preorderNode_unfold, !fmap_cons.
  rewrite identityOf_applyFlags, components_applyFlags. f_equal.
  subst n. cbn [components setComponents].
  destruct ocs as [cs|]; [|done]. cbn [fmap option_fmap option_map from_option id].
  unfold transform, survivors. rewrite preorder_omap.
  induction IH as [|c cs Hc _ IHcs]; [done|].
  by rewrite !bind_cons, !fmap_app, Hc, IHcs.
Qed.

Lemma transform_survivors rules cs :
  identityOf <$> preorder (transform rules cs) =
  identityOf <$> survivors rules cs.
Proof.
  unfold transform, survivors. rewrite preorder_omap.
  induction cs as [|c cs IH]; [done|].
  by rewrite !bind_cons, !fmap_app, transformNode_survivors, IH.
Qed.

Lemma transformNode_idemp rules n nn :
  transformNode rules n = Some nn → transformNode rules nn = Some nn.
Proof.
  revert nn. induction n as [k t l y d v ocs IH] using Comp_tree_ind.
  set (n := mkComp k t l y d v ocs). intros nn.
  rewrite transformNode_unfold. case_bool_decide as Hh; [done|].
  intros [= <-]. rewrite transformNode_unfold, ruleFor_applyFlags.
  rewrite bool_decide_eq_false_2 by done. f_equal.
  rewrite components_applyFlags, setComponents_applyFlags, applyFlags_idemp.
  f_equal. subst n. cbn [components setComponents]. f_equal.
  destruct ocs as [cs|]; [|done]. cbn. f_equal. unfold transform. clear Hh.
  induction IH as [|c cs Hc _ IHcs]; [done|]. cbn.
  destruct (transformNode rules c) as [c'|] eqn:Hc'; [|done].
  cbn. by rewrite (Hc c'), IHcs.
Qed.

Lemma transform_idemp rules cs :
  transform rules (transform rules cs) = transform rules cs.
Proof.
  unfold transform. induction cs as [|c cs IH]; [done|]. cbn.
  destruct (transformNode rules c) as [c'|] eqn:Hc'; [|done].
  cbn. by rewrite (transformNode_idemp _ _ _ Hc'), IH.
Qed.

Lemma transform_fixed rules cs :
  Forall (λ c, transformNode rules c = Some c) cs → transform rules cs = cs.
Proof.
  unfold transform. induction 1 as [|c cs Hc _ IH]; [done|].
  cbn. by rewrite Hc, IH.
Qed.

Lemma transformNode_no_rule rules n :
  Forall (λ m, ruleFor rules m = None) (preorderNode n) →
  transformNode rules n = Some n.
Proof.
  induction n as [k t l y d v ocs IH] using Comp_tree_ind.
  set (n := mkComp k t l y d v ocs).
  rewrite preorderNode_unfold. intros [Hn Hcs]%Forall_cons.
  rewrite transformNode_unfold, Hn. cbn. f_equal.
  rewrite <- (setComponents_components n) at 2. f_equal.
  subst n. cbn [components] in *. clear Hn.
  destruct ocs as [cs|]; [|done].
  cbn [fmap option_fmap option_map from_option id] in *. f_equal.
  apply transform_fixed. unfold preorder in Hcs.
  induction IH as [|c cs Hc _ IHcs]; [constructor|].
  rewrite bind_cons in Hcs. apply Forall_app in Hcs as [??].
  constructor; auto.
Qed.

Lemma transform_no_rule rules cs :
  Forall (λ m, ruleFor rules m = None) (preorder cs) →
  transform rules cs = cs.
Proof.
  intros H. apply transform_fixed. unfold preorder in H.
  induction cs as [|c cs IH]; [constructor|].
  rewrite bind_cons in H. apply Forall_app in H as [??].
  constructor; [by apply transformNode_no_rule|auto].
Qed.

(** X4 — enrichment is idempotent: enriching an enriched schema for the
    same bundle changes nothing. *)
Theorem enrichFormSchemaForState_idempotent
    (schema : FormSchema) (bundle : BehaviorBundle) :
  enrichFormSchemaForState (enrichFormSchemaForState schema bundle) bundle =
  enrichFormSchemaForState schema bundle.
Proof.
  unfold enrichFormSchemaForState.
  cbn [schema_components schema_type from_option id].
  by rewrite transform_idemp.
Qed.

(** X5 — no opinion, no change: when no node of the schema has a rule in
    the bundle (no row names the non-empty key of a node), the enriched
    schema has the component tree of the input, node for node; a schema
    without [components] gets an empty component list. *)
Theorem enrich_without_rules_is_identity
    (schema : FormSchema) (bundle : BehaviorBundle) :
  Forall (λ m, ruleFor (rulesOf (rows bundle)) m = None)
         (preorder (default [] (schema_components schema))) →
  enrichFormSchemaForState schema bundle =
  {| schema_type := schema_type schema;
     schema_components := Some (default [] (schema_components schema)) |}.
Proof.
  intros H. unfold enrichFormSchemaForState. by rewrite transform_no_rule.
Qed.

(** X6 — what enrichment emits: in pre-order, the nodes of the enriched
    tree are the nodes of the input that are neither hidden nor below a
    hidden node, one for one and in the same order, each with its [key],
    [type], [label] and [text] untouched; no node is invented, moved or
    renamed. *)
Theorem enrich_emits_survivors
    (schema : FormSchema) (bundle : BehaviorBundle) :
  identityOf <$> preorder (default [] (schema_components
                   (enrichFormSchemaForState schema bundle))) =
  identityOf <$> survivors (rulesOf (rows bundle))
                   (default [] (schema_components schema)).
Proof. cbn. apply transform_survivors. Qed.

End enrich_more.

Lemma enrich_without_rules_is_identity_witness :
  Enrich.enrichFormSchemaForState Examples.nested Examples.hideEmpty =
  {| schema_type := Some "default";
     schema_components := schema_components Examples.nested |}.
Proof.
  apply (enrich_without_rules_is_identity Examples.nested Examples.hideEmpty).
  repeat constructor.
Defined.

(** * The application wiring *)

Section app_props.
Import Codec Enrich.

Lemma find_bundleOfState (M : BehaviorMatrixValue) (S : list string) st :
  find (λ x, bool_decide (state x = st)) (bundlesFromMatrix M S) =
  if bool_decide (st ∈ S) then Some (bundleOfState M st) else None.
Proof.
  rewrite bundlesFromMatrix_fmap. induction S as [|s S IH]; [done|].
  cbn [fmap list_fmap find]. change (state (bundleOfState M s)) with s.
  destruct (decide (s = st)) as [->|Hne].
  - rewrite bool_decide_eq_true_2 by done.
    by rewrite bool_decide_eq_true_2 by apply list_elem_of_here.
  - rewrite bool_decide_eq_false_2 by done. rewrite IH.
    apply (f_equal (λ b : bool, if b then _ else _)), bool_decide_ext.
    rewrite elem_of_cons. split; [by right|]. by intros [?|?]; [congruence|].
Qed.

(** The rule the enricher derives for a field from the bundle the encoder
    makes for a state is the rule of the row the encoder pushes for the
    field. *)
Lemma rulesOf_bundleOfState_gen (M : BehaviorMatrixValue) s k :
  rulesOf (rows (bundleOfState M s)) !! k =
  toRule <$> (M !! k ≫= λ row, rowAt s (k, row)).
Proof.
  rewrite rulesOf_lookup. unfold rowsFor.
  destruct (last _) as [r|] eqn:Hlast; cbn.
  - apply last_Some_elem_of, list_elem_of_filter in Hlast as [<- Hin].
    apply elem_of_rows_bundleOfState_gen in Hin as (row & -> & Hr).
    cbn. by rewrite Hr.
  - apply last_None in Hlast.
    destruct (M !! k) as [row|] eqn:Hrow; [|done]. cbn.
    destruct (rowAt s (k, row)) as [r|] eqn:Hr; [|done]. exfalso.
    pose proof (rowAt_field_name _ _ _ Hr) as Hk. cbn in Hk.
    apply (filter_nil_not_elem_of _ _ r Hlast); [done|].
    apply elem_of_rows_bundleOfState_gen. exists row. by rewrite Hk.
Qed.

(** For an own cell it is the cell of the matrix, with [required] kept only
    on an editable cell. *)
Lemma rulesOf_bundleOfState (M : BehaviorMatrixValue) s k c :
  cellAt M k s = Some c →
  rulesOf (rows (bundleOfState M s)) !! k = Some (coerce c).
Proof.
  unfold cellAt. intros Hc. rewrite rulesOf_bundleOfState_gen.
  destruct (M !! k) as [row|]; [|done]. cbn in Hc |- *.
  unfold rowAt, member. cbn. rewrite Hc. cbn.
  by rewrite toRule_cellOfRow, cellOfRow_rowOfCell.
Qed.

Lemma entry_in_STATES : "entry" ∈ (fst <$> App.STATES).
Proof. apply list_elem_of_here. Qed.

Lemma App_readOnly_no_editable
    (matrix : BehaviorMatrixValue) (formState : string) :
  App.readOnly matrix formState = true ↔
  ∀ f c, cellAt matrix f formState = Some c → mode c ≠ editable.
Proof.
  unfold App.readOnly, App.bundles, Resolver.readOnly.
  rewrite find_bundleOfState, existsb_fmap.
  change (editableAt formState ∘ snd)
    with (λ e : string * StateRow, editableAt formState e.2).
  assert (Hno : existsb (λ e, editableAt formState e.2) (map_to_list matrix) = false
                ↔ ∀ f c, cellAt matrix f formState = Some c → mode c ≠ editable).
  { rewrite <- not_true_iff_false, anyEditable_cellAt. split.
    - intros Hn f c Hc He. apply Hn. eauto.
    - intros Ha (f & c & Hc & He). by eapply Ha. }
  rewrite <- Hno. case_bool_decide as Hst.
  - rewrite action_bundleOfState.
    destruct (existsb _ _); cbn; [by split|]. by split.
  - rewrite (bool_decide_eq_true_2 (formState ≠ "entry")).
    + by destruct (existsb _ _).
    + intros ->. apply Hst, entry_in_STATES.
Qed.

(** X7 — the read-only flag as the application computes it: with the
    bundles derived from the matrix itself, the viewer is read-only exactly
    when the matrix has no editable cell for the form state, for every form
    state, ["entry"] included (an empty matrix makes the entry state
    read-only: its derived bundle has action [view]). *)
Theorem App_readOnly_iff_no_editable_cell
    (matrix : BehaviorMatrixValue) (formState : string) :
  App.readOnly matrix formState = true ↔
  ∀ f c, cellAt matrix f formState = Some c → mode c ≠ editable.
Proof. apply App_readOnly_no_editable. Qed.

(** X8 — enricher after encoder: in every bundle of
    [bundlesFromMatrix M S] the rule the enricher derives for a field key of
    the matrix is the own cell the matrix has for that key and the state of
    the bundle, with [required] kept only when the cell is editable; without
    an own cell the key has no rule, unless the state of the bundle names a
    member of [Object.prototype]: every field of the matrix without an own
    cell is then read-only and not required; a key that is not a field key of
    the matrix has no rule. *)
Theorem rules_of_encoded_bundle
    (M : BehaviorMatrixValue) (S : list string) (b : BehaviorBundle) (k : string) :
  b ∈ bundlesFromMatrix M S →
  rulesOf (rows b) !! k =
  match M !! k with
  | Some row =>
      match row !! state b with
      | Some c => Some {| mode := mode c;
                          required := if bool_decide (mode c = editable)
                                      then required c else false |}
      | None => if inherited (state b)
                then Some {| mode := readonly; required := false |}
                else None
      end
  | None => None
  end.
Proof.
  rewrite bundlesFromMatrix_fmap. intros (s & -> & _)%list_elem_of_fmap.
  rewrite rulesOf_bundleOfState_gen. change (state (bundleOfState M s)) with s.
  destruct (M !! k) as [row|]; [|done]. cbn. unfold rowAt, member. cbn.
  destruct (row !! s) as [[m r]|]; [|by destruct (inherited s)].
  cbn. rewrite toRule_cellOfRow, cellOfRow_rowOfCell. unfold coerce. cbn.
  f_equal. f_equal. by destruct r, (bool_decide _).
Qed.

(** X9 — the schema the viewer gets: for a form state of [STATES], a node
    whose non-empty key has a hidden cell in the matrix for that state is not
    in the enriched schema, at any depth; for a form state outside [STATES]
    the default bundle has no rows and the component tree passes through
    unchanged. *)
Theorem App_enriched_follows_matrix
    (schema : FormSchema) (matrix : BehaviorMatrixValue) (formState : string) :
  (formState ∈ (fst <$> App.STATES) →
   ∀ k c, k ≠ "" → cellAt matrix k formState = Some c → mode c = hidden →
     Forall (λ m, key m ≠ Some k)
       (preorder (default [] (schema_components
                                (App.enriched schema matrix formState)))))
  ∧ (formState ∉ (fst <$> App.STATES) →
     schema_components (App.enriched schema matrix formState) =
     Some (default [] (schema_components schema))).
Proof.
  unfold App.enriched, App.bundleFor, App.bundles.
  rewrite find_bundleOfState. split; intros Hst.
  - rewrite bool_decide_eq_true_2 by done. intros k c Hk Hc Hm.
    unfold enrichFormSchemaForState.
    cbn [schema_components from_option id]. apply transform_keys; [done|].
    rewrite (rulesOf_bundleOfState _ _ _ c) by done. cbn. by rewrite Hm.
  - rewrite bool_decide_eq_false_2 by done.
    unfold enrichFormSchemaForState.
    cbn [schema_components from_option id rows].
    f_equal. apply transform_no_rule, Forall_forall. intros m _.
    unfold ruleFor. destruct (truthyKey (key m)); [|done]. cbn.
    apply lookup_empty.
Qed.

End app_props.

Lemma rules_of_encoded_bundle_witness :
  Enrich.rulesOf (rows (Codec.bundleOfState Examples.hiddenRequired "s")) !! "f"
  = Some (mkCell hidden false)
  ∧ Enrich.rulesOf (rows (Codec.bundleOfState Examples.hiddenRequired "valueOf")) !! "f"
    = Some (mkCell readonly false).
Proof.
  split.
  - apply (rules_of_encoded_bundle Examples.hiddenRequired ["s"]
             (Codec.bundleOfState Examples.hiddenRequired "s") "f").
    vm_compute. apply list_elem_of_here.
  - apply (rules_of_encoded_bundle Examples.hiddenRequired ["valueOf"]
             (Codec.bundleOfState Examples.hiddenRequired "valueOf") "f").
    vm_compute. apply list_elem_of_here.
Defined.

(** * Further properties of the schema utilities *)


Section schema_more.
Import Schema SchemaUtil.

Lemma extractKeysNode_unfold c acc :
  extractKeysNode c acc =
  extractFieldKeys (default [] (components c))
    (if isDisplay c then acc
     else match truthyKey (key c) with
          | Some k => acc ++ [k]
          | None => acc
          end).
Proof.
  assert (Hloop : ∀ cs a,
    (fix loop (cs : list Comp) (acc : list string) :=
       match cs with
       | [] => acc
       | c' :: cs' => loop cs' (extractKeysNode c' acc)
       end) cs a = extractFieldKeys cs a).
  { induction cs as [|c' cs IH]; intros a; [done|]. cbn. by rewrite IH. }
  destruct c as [k t l x d v [cs|]]; cbn [extractKeysNode components default].
  - rewrite !Hloop. by destruct (isDisplay _).
  - cbn. by destruct (isDisplay _).
Qed.

Lemma key_fieldOf c :
  FieldMeta.key <$> fieldOf c =
  if isDisplay c then None else truthyKey (key c).
Proof.
  unfold fieldOf. destruct (isDisplay c); [done|].
  by destruct (truthyKey (key c)).
Qed.

Lemma extractKeysNode_preorder c acc :
  extractKeysNode c acc =
  acc ++ omap (λ c, FieldMeta.key <$> fieldOf c) (preorderNode c).
Proof.
  revert acc. induction c as [k t l x d v ocs IH] using Comp_tree_ind.
  intros acc. rewrite extractKeysNode_unfold, preorderNode_unfold.
  set (c := mkComp k t l x d v ocs).
  assert (Hcs : ∀ a, extractFieldKeys (default [] (components c)) a =
                     a ++ omap (λ c, FieldMeta.key <$> fieldOf c)
                               (preorder (default [] (components c)))).
  { subst c. cbn [components]. unfold extractFieldKeys, preorder.
    destruct ocs as [cs|]; cbn [from_option id].
    - induction IH as [|c' cs Hc' _ IHcs]; intros a; cbn [foldl].
      + cbn. by rewrite app_nil_r.
      + rewrite bind_cons, omap_app, app_assoc, <- Hc'. apply IHcs.
    - intros a. cbn. by rewrite app_nil_r. }
  rewrite Hcs. cbn [omap list_omap]. rewrite key_fieldOf.
  destruct (isDisplay c); [done|].
  destruct (truthyKey (key c)); cbn; [|done]. by rewrite <- app_assoc.
Qed.

Lemma extractFieldKeys_preorder cs acc :
  extractFieldKeys cs acc =
  acc ++ omap (λ c, FieldMeta.key <$> fieldOf c) (preorder cs).
Proof.
  unfold extractFieldKeys, preorder. revert acc.
  induction cs as [|c cs IH]; intros acc; cbn [foldl].
  - cbn. by rewrite app_nil_r.
  - rewrite IH, extractKeysNode_preorder, bind_cons, omap_app.
    by rewrite app_assoc.
Qed.

(** X10 — the two extractors agree: [extractFieldKeys] pushes, after
    what the accumulator already holds, the keys of the Fields
    [extractFields] yields, in the same order. *)
Theorem extractFieldKeys_agrees_with_extractFields
    (components : list Comp) (acc : list string) :
  extractFieldKeys components acc =
  acc ++ (FieldMeta.key <$> extractFields components []).
Proof.
  rewrite extractFieldKeys_preorder, extractFields_preorder. cbn [app].
  by rewrite list_fmap_omap.
Qed.

Lemma trimmed_nonempty x s : trimmed x = Some s → s ≠ "".
Proof.
  unfold trimmed, truthyKey. destruct (trim <$> x) as [t|]; [|done].
  case_bool_decide; [done|]. by intros [= <-].
Qed.

Lemma truthyKey_Some k s : truthyKey k = Some s → k = Some s ∧ s ≠ "".
Proof.
  unfold truthyKey. destruct k as [t|]; [|done].
  case_bool_decide; [done|]. by intros [= <-].
Qed.

(** X11 — what a Field carries: every Field of [extractFields] has a
    non-empty key and a non-empty label, placed after the Fields the
    accumulator already held; and extraction distributes over
    concatenation of component lists. *)
Theorem extractFields_fields_are_addressable
    (cs1 cs2 : list Comp) (acc : list FieldMeta.t) :
  Forall (λ fm, FieldMeta.key fm ≠ "" ∧ FieldMeta.label fm ≠ "")
         (extractFields cs1 [])
  ∧ extractFields cs1 acc = acc ++ extractFields cs1 []
  ∧ extractFields (cs1 ++ cs2) [] = extractFields cs1 [] ++ extractFields cs2 [].
Proof.
  split; [|split].
  - rewrite extractFields_preorder. cbn [app]. apply Forall_forall.
    intros fm (c & _ & Hc)%list_elem_of_omap. unfold fieldOf in Hc.
    destruct (isDisplay c); [done|].
    destruct (truthyKey (key c)) as [k|] eqn:Hk; [|done].
    apply truthyKey_Some in Hk as [_ Hk]. cbn in Hc. simplify_eq.
    unfold fieldMeta. cbn. split; [done|].
    destruct (trimmed (label c)) eqn:Hl; [by eapply trimmed_nonempty|].
    destruct (trimmed (text c)) eqn:Ht; [by eapply trimmed_nonempty|done].
  - by rewrite !extractFields_preorder.
  - rewrite !extractFields_preorder. cbn [app]. unfold preorder.
    by rewrite bind_app, omap_app.
Qed.

End schema_more.

Section index_props.
Import Schema SchemaUtil.

Lemma indexNode_unfold c (m : gmap string Comp) :
  indexNode c m =
  indexByKey (default [] (components c))
    (match truthyKey (key c) with
     | Some k => <[k := c]> m
     | None => m
     end).
Proof.
  assert (Hloop : ∀ cs (a : gmap string Comp),
    (fix loop (cs : list Comp) (map : gmap string Comp) :=
       match cs with
       | [] => map
       | c' :: cs' => loop cs' (indexNode c' map)
       end) cs a = indexByKey cs a).
  { induction cs as [|c' cs IH]; intros a; [done|]. cbn. by rewrite IH. }
  destruct c as [k t l x d v [cs|]]; cbn [indexNode components default].
  - by rewrite Hloop.
  - done.
Qed.

Lemma indexByKey_lookup_Forall (k : string) (cs : list Comp) :
  Forall (λ c, ∀ m : gmap string Comp,
            indexNode c m !! k =
            match last (filter (λ n, truthyKey (key n) = Some k) (preorderNode c)) with
            | Some n => Some n
            | None => m !! k
            end) cs →
  ∀ m : gmap string Comp,
    indexByKey cs m !! k =
    match last (filter (λ n, truthyKey (key n) = Some k) (preorder cs)) with
    | Some n => Some n
    | None => m !! k
    end.
Proof.
  unfold indexByKey, preorder.
  induction 1 as [|c cs Hc _ IH]; intros m; [done|].
  cbn [foldl]. rewrite IH, Hc, bind_cons, filter_app, last_app.
  by destruct (last (filter _ (cs ≫= _))).
Qed.

Lemma indexNode_lookup (k : string) c (m : gmap string Comp) :
  indexNode c m !! k =
  match last (filter (λ n, truthyKey (key n) = Some k) (preorderNode c)) with
  | Some n => Some n
  | None => m !! k
  end.
Proof.
  revert m. induction c as [k' t l x d v ocs IH] using Comp_tree_ind.
  set (c := mkComp k' t l x d v ocs). intros m.
  rewrite indexNode_unfold, preorderNode_unfold.
  assert (Hcs : Forall (λ c, ∀ m : gmap string Comp,
            indexNode c m !! k =
            match last (filter (λ n, truthyKey (key n) = Some k) (preorderNode c)) with
            | Some n => Some n
            | None => m !! k
            end) (default [] (components c))).
  { subst c. cbn [components]. destruct ocs; [done|constructor]. }
  rewrite (indexByKey_lookup_Forall _ _ Hcs), filter_cons.
  destruct (decide (truthyKey (key c) = Some k)) as [Hk|Hk].
  - rewrite last_cons, Hk, lookup_insert_eq.
    by destruct (last (filter _ _)).
  - destruct (last (filter _ _)); [done|].
    destruct (truthyKey (key c)) as [k''|]; [|done].
    apply lookup_insert_ne. congruence.
Qed.

Lemma indexByKey_lookup (k : string) cs (m : gmap string Comp) :
  indexByKey cs m !! k =
  match last (filter (λ n, truthyKey (key n) = Some k) (preorder cs)) with
  | Some n => Some n
  | None => m !! k
  end.
Proof.
  apply indexByKey_lookup_Forall, Forall_forall. intros c _ m'.
  apply indexNode_lookup.
Qed.

(** X12 — the key index: [indexByKey] maps a key to the last node, in
    pre-order, that carries it as a non-empty key (a later duplicate replaces
    an earlier one) and leaves the entry of the given map for a key no node
    carries; every key [extractFieldKeys] yields is indexed, by a node with
    that key. *)
Theorem indexByKey_last_node_wins
    (components : list Comp) (map : gmap string Comp) (k : string) :
  indexByKey components map !! k =
    match last (filter (λ n, truthyKey (key n) = Some k) (preorder components)) with
    | Some n => Some n
    | None => map !! k
    end
  ∧ (k ∈ extractFieldKeys components [] →
     ∃ n, indexByKey components map !! k = Some n ∧ key n = Some k).
Proof.
  split; [apply indexByKey_lookup|].
  rewrite extractFieldKeys_preorder. cbn [app].
  intros (c & Hin & Hc)%list_elem_of_omap. rewrite key_fieldOf in Hc.
  destruct (isDisplay c); [done|].
  rewrite indexByKey_lookup.
  destruct (last _) as [n|] eqn:Hlast.
  - exists n. split; [done|].
    apply last_Some_elem_of, list_elem_of_filter in Hlast as [Hn _].
    by apply truthyKey_Some in Hn as [? _].
  - apply last_None in Hlast. exfalso.
    by apply (filter_nil_not_elem_of _ _ c Hlast).
Qed.

End index_props.

Section extract_enrich.
Import Schema Enrich.

Lemma fieldOf_identity a b : identityOf a = identityOf b → fieldOf a = fieldOf b.
Proof.
  unfold identityOf, fieldOf, isDisplay, fieldMeta. intros [= Hk Ht Hl Hx].
  by rewrite Hk, Ht, Hl, Hx.
Qed.

Lemma omap_fieldOf_identity (l1 l2 : list Comp) :
  identityOf <$> l1 = identityOf <$> l2 → omap fieldOf l1 = omap fieldOf l2.
Proof.
  revert l2. induction l1 as [|a l1 IH]; intros [|b l2] Heq; try done.
  pose proof (f_equal head Heq) as Hh. pose proof (f_equal tail Heq) as Ht.
  cbn [head tail fmap list_fmap] in Hh, Ht. apply (inj Some) in Hh.
  cbn. by rewrite (fieldOf_identity a b Hh), (IH l2 Ht).
Qed.

Lemma sublist_omap {A B} (g : A → option B) (l1 l2 : list A) :
  l1 `sublist_of` l2 → omap g l1 `sublist_of` omap g l2.
Proof.
  induction 1 as [|x l1 l2 _ IH|x l1 l2 _ IH]; cbn.
  - constructor.
  - destruct (g x); [by constructor|done].
  - destruct (g x); [by constructor|done].
Qed.

Lemma survivors_sublist_Forall rules cs :
  Forall (λ c, survivorsNode rules c `sublist_of` preorderNode c) cs →
  survivors rules cs `sublist_of` preorder cs.
Proof.
  unfold survivors, preorder. induction 1 as [|c cs Hc _ IH]; [done|].
  rewrite !bind_cons. by apply sublist_app.
Qed.

Lemma survivorsNode_sublist rules n :
  survivorsNode rules n `sublist_of` preorderNode n.
Proof.
  induction n as [k t l x d v ocs IH] using Comp_tree_ind.
  rewrite survivorsNode_unfold, preorderNode_unfold.
  destruct (bool_decide _); [apply sublist_nil_l|].
  constructor. apply survivors_sublist_Forall. cbn [components].
  destruct ocs; [done|constructor].
Qed.

Lemma survivors_sublist rules cs :
  survivors rules cs `sublist_of` preorder cs.
Proof.
  apply survivors_sublist_Forall, Forall_forall. intros c _.
  apply survivorsNode_sublist.
Qed.

Lemma survivors_not_hidden_Forall rules cs :
  Forall (λ c, Forall (λ m, mode <$> ruleFor rules m ≠ Some hidden)
                      (survivorsNode rules c)) cs →
  Forall (λ m, mode <$> ruleFor rules m ≠ Some hidden) (survivors rules cs).
Proof.
  unfold survivors. induction 1 as [|c cs Hc _ IH]; [constructor|].
  rewrite bind_cons. by apply Forall_app.
Qed.

Lemma survivorsNode_not_hidden rules n :
  Forall (λ m, mode <$> ruleFor rules m ≠ Some hidden) (survivorsNode rules n).
Proof.
  induction n as [k t l x d v ocs IH] using Comp_tree_ind.
  rewrite survivorsNode_unfold. case_bool_decide; [constructor|].
  constructor; [done|]. apply survivors_not_hidden_Forall. cbn [components].
  destruct ocs; [done|constructor].
Qed.

(** X13 — extractor after enricher: the Fields of an enriched schema are
    the Fields of the surviving nodes, unchanged (key, label and type); they
    form a sub-sequence of the Fields of the input schema, and none of them
    has a key whose rule is Hidden. *)
Theorem extractFields_of_enriched
    (schema : FormSchema) (bundle : BehaviorBundle) :
  extractFields (default [] (schema_components
                   (enrichFormSchemaForState schema bundle))) []
    = omap fieldOf (survivors (rulesOf (rows bundle))
                              (default [] (schema_components schema)))
  ∧ extractFields (default [] (schema_components
                     (enrichFormSchemaForState schema bundle))) []
      `sublist_of` extractFields (default [] (schema_components schema)) []
  ∧ Forall (λ fm, mode <$> rulesOf (rows bundle) !! FieldMeta.key fm ≠ Some hidden)
      (extractFields (default [] (schema_components
                        (enrichFormSchemaForState schema bundle))) []).
Proof.
  set (rules := rulesOf (rows bundle)).
  set (cs := default [] (schema_components schema)).
  assert (Heq : extractFields (default [] (schema_components
                   (enrichFormSchemaForState schema bundle))) []
                = omap fieldOf (survivors rules cs)).
  { unfold enrichFormSchemaForState.
    cbn [schema_components from_option id].
    rewrite extractFields_preorder. cbn [app].
    apply omap_fieldOf_identity, transform_survivors. }
  rewrite Heq. split; [done|]. split.
  - rewrite extractFields_preorder. cbn [app].
    apply sublist_omap, survivors_sublist.
  - apply Forall_forall. intros fm (n & Hn & Hfm)%list_elem_of_omap.
    pose proof (survivors_not_hidden_Forall rules cs
                  (Forall_true _ _ (survivorsNode_not_hidden rules))) as Hall.
    rewrite Forall_forall in Hall. specialize (Hall n Hn).
    unfold fieldOf in Hfm. destruct (isDisplay n); [done|].
    destruct (truthyKey (key n)) as [k|] eqn:Hk; [|done].
    cbn in Hfm. simplify_eq. cbn.
    unfold ruleFor in Hall. by rewrite Hk in Hall.
Qed.

End extract_enrich.

(** * Editing and loading the matrix *)

Section matrix_more.
Import Matrix.

Lemma ordinaryNames_lookup (M : BehaviorMatrixValue) :
  ordinaryNames M ↔
  ∀ f row, M !! f = Some row → ordinary f ∧ ∀ s, is_Some (row !! s) → ordinary s.
Proof.
  unfold ordinaryNames. rewrite Forall_forall. split.
  - intros H f row Hrow. destruct (H (f, row)) as [Hf Hs].
    { by apply elem_of_map_to_list. }
    split; [done|]. by apply keys_ordinary.
  - intros H [f row] Hin%elem_of_map_to_list. destruct (H f row Hin) as [Hf Hs].
    split; [done|]. cbn. unfold keys. apply Forall_forall.
    intros s ([s' c] & -> & Hc%elem_of_map_to_list)%list_elem_of_fmap.
    apply Hs. eauto.
Qed.

Lemma ensureAllCells_ordinary (M : BehaviorMatrixValue) (F S : list string) :
  Forall ordinary F → Forall ordinary S →
  ensureAllCells M F S = Returns (Dict.ensureAllCells M F S).
Proof.
  rewrite !Forall_forall. intros HF HS. apply ensureAllCells_Returns.
  intros fk Hfk. split; [right; by apply HF|]. intros st Hst. right. by apply HS.
Qed.

Lemma overlayMatrixSourceWins_ordinary (target source : BehaviorMatrixValue) :
  ordinaryNames source →
  overlayMatrixSourceWins target source =
  Returns (Dict.overlayMatrixSourceWins target source).
Proof.
  rewrite ordinaryNames_lookup. intros Hsrc.
  apply overlayMatrixSourceWins_Returns. intros fk src Hfk.
  destruct (Hsrc fk src Hfk) as [Hf Hs]. split; [by right|].
  intros st Hst. right. by apply ordinary_not_proto, Hs.
Qed.

(** X22 — completion among own keys: a completion runs among own
    properties and returns a matrix exactly when every listed field key is an
    own key of the matrix or not the name of a member of [Object.prototype],
    and every listed state is so for the row of every listed field key.  The
    matrix it returns has, at every pair [(f, s)] with [f] in [F] and [s] in
    [S], the cell of [M] when it has one and [{mode: hidden, required:
    false}] otherwise; every cell [M] has at any pair, whether or not its
    field or state is listed, is in the result unchanged; and no other cell
    is added. *)
Theorem ensureAllCells_completes_and_preserves
    (M : BehaviorMatrixValue) (F S : list string) :
  ((∃ M', ensureAllCells M F S = Returns M') ↔
   ∀ fk, fk ∈ F →
     plain M fk ∧ ∀ st, st ∈ S → plain (default ∅ (M !! fk)) st)
  ∧ ∀ M', ensureAllCells M F S = Returns M' →
      ∀ f s,
        (f ∈ F → s ∈ S →
           cellAt M' f s =
           Some (match cellAt M f s with Some c => c | None => DEFAULT_CELL end))
        ∧ (∀ c, cellAt M f s = Some c → cellAt M' f s = Some c)
        ∧ (cellAt M f s = None → ¬ (f ∈ F ∧ s ∈ S) → cellAt M' f s = None).
Proof.
  split; [apply ensureAllCells_Returns_iff|].
  intros M' ->%ensureAllCells_inv f s. rewrite cellAt_ensureAllCells.
  split; [|split].
  - intros Hf Hs. rewrite decide_True by done. by destruct (cellAt M f s).
  - intros c Hc. rewrite Hc. by case_decide.
  - intros Hc Hn. by rewrite decide_False.
Qed.

(** X23 — overlay among own keys: an overlay runs among own properties and
    returns a matrix exactly when every field key of [source] is an own key
    of [target] or not the name of a member of [Object.prototype], and no
    state of [source] is [__proto__] without being an own state of the row
    of [target].  At every pair present in [source] the matrix it returns
    holds the cell of [source], whatever [target] held there; at every pair
    absent from [source] it holds what [target] holds. *)
Theorem overlayMatrixSourceWins_precedence
    (target source : BehaviorMatrixValue) :
  ((∃ M', overlayMatrixSourceWins target source = Returns M') ↔
   ∀ fk src, source !! fk = Some src →
     plain target fk
     ∧ ∀ st, is_Some (src !! st) → assignable (default ∅ (target !! fk)) st)
  ∧ ∀ M', overlayMatrixSourceWins target source = Returns M' →
      ∀ f st,
        (∀ c, cellAt source f st = Some c → cellAt M' f st = Some c)
        ∧ (cellAt source f st = None → cellAt M' f st = cellAt target f st).
Proof.
  split; [apply overlayMatrixSourceWins_Returns_iff|].
  intros M' ->%overlayMatrixSourceWins_inv f st.
  rewrite cellAt_overlayMatrixSourceWins. split.
  - by intros c ->.
  - by intros ->.
Qed.

End matrix_more.

Lemma ensureAllCells_completes_and_preserves_witness :
  ∃ M', Matrix.ensureAllCells Examples.edited ["name"; "age"] ["entry"; "approve"]
          = Returns M'
    ∧ cellAt M' "age" "approve" = Some Matrix.DEFAULT_CELL
    ∧ cellAt M' "legacy" "archived" = Some (mkCell readonly false).
Proof.
  destruct (ensureAllCells_completes_and_preserves
              Examples.edited ["name"; "age"] ["entry"; "approve"])
    as [Hret Hcells].
  destruct (proj2 Hret) as [M' HM'].
  - intros fk Hfk. split.
    + right. apply elem_of_cons in Hfk as [->|Hfk];
        [|apply list_elem_of_singleton in Hfk as ->];
        apply (bool_decide_unpack _); vm_compute; exact I.
    + intros st Hst. right. apply elem_of_cons in Hst as [->|Hst];
        [|apply list_elem_of_singleton in Hst as ->];
        apply (bool_decide_unpack _); vm_compute; exact I.
  - exists M'. split; [exact HM'|]. split.
    + apply (proj1 (Hcells M' HM' "age" "approve")).
      * apply list_elem_of_further, list_elem_of_here.
      * apply list_elem_of_further, list_elem_of_here.
    + apply (proj1 (proj2 (Hcells M' HM' "legacy" "archived"))).
      vm_compute. reflexivity.
Defined.

Lemma overlayMatrixSourceWins_precedence_witness :
  ∃ M', Matrix.overlayMatrixSourceWins Examples.edited Examples.loaded = Returns M'
    ∧ cellAt M' "name" "entry" = Some (mkCell readonly false)
    ∧ cellAt M' "legacy" "archived" = cellAt Examples.edited "legacy" "archived".
Proof.
  destruct (overlayMatrixSourceWins_precedence Examples.edited Examples.loaded)
    as [_ Hcells].
  exists (Dict.overlayMatrixSourceWins Examples.edited Examples.loaded).
  assert (HM' : Matrix.overlayMatrixSourceWins Examples.edited Examples.loaded =
                Returns (Dict.overlayMatrixSourceWins Examples.edited Examples.loaded)).
  { vm_compute. reflexivity. }
  split; [exact HM'|]. split.
  - apply (proj1 (Hcells _ HM' "name" "entry")). vm_compute. reflexivity.
  - apply (proj2 (Hcells _ HM' "legacy" "archived")). vm_compute. reflexivity.
Defined.

Section editor_props.
Import Matrix MatrixEditor.
Implicit Types (M : BehaviorMatrixValue) (row : StateRow).

Lemma cellAt_insert_row M f row s c f' s' :
  M !! f = Some row →
  cellAt (<[f := <[s := c]> row]> M) f' s' =
  if decide (f' = f ∧ s' = s) then Some c else cellAt M f' s'.
Proof.
  intros Hrow. unfold cellAt. destruct (decide (f' = f)) as [->|Hf].
  - rewrite lookup_insert_eq, Hrow. cbn. destruct (decide (s' = s)) as [->|Hs].
    + by rewrite lookup_insert_eq, decide_True.
    + rewrite lookup_insert_ne by congruence. by rewrite decide_False by tauto.
  - rewrite lookup_insert_ne by congruence. by rewrite decide_False by tauto.
Qed.

Lemma overlayRow_assoc (a b row : StateRow) :
  Dict.overlayRow a (Dict.overlayRow b row) =
  Dict.overlayRow (Dict.overlayRow a b) row.
Proof.
  apply map_eq. intros s. rewrite !overlayRow_lookup. by destruct (a !! s).
Qed.

Lemma overlayRow_empty_r (a : StateRow) : Dict.overlayRow a ∅ = a.
Proof.
  apply map_eq. intros s. rewrite overlayRow_lookup, lookup_empty.
  by destruct (a !! s).
Qed.

Lemma overlayRow_idemp (a row : StateRow) :
  Dict.overlayRow a (Dict.overlayRow a row) = Dict.overlayRow a row.
Proof.
  apply map_eq. intros s. rewrite !overlayRow_lookup. by destruct (a !! s).
Qed.

Lemma overlayMatrixSourceWins_assoc (target a b : BehaviorMatrixValue) :
  Dict.overlayMatrixSourceWins (Dict.overlayMatrixSourceWins target a) b =
  Dict.overlayMatrixSourceWins target (Dict.overlayMatrixSourceWins a b).
Proof.
  apply map_eq; intros f. rewrite !overlayMatrixSourceWins_lookup.
  destruct (b !! f) as [bf|], (a !! f) as [af|]; cbn; try done.
  - by rewrite overlayRow_assoc.
  - by rewrite overlayRow_empty_r.
Qed.

Lemma overlayMatrixSourceWins_idemp (target a : BehaviorMatrixValue) :
  Dict.overlayMatrixSourceWins (Dict.overlayMatrixSourceWins target a) a =
  Dict.overlayMatrixSourceWins target a.
Proof.
  apply map_eq; intros f. rewrite !overlayMatrixSourceWins_lookup.
  destruct (a !! f) as [af|]; cbn; [|done]. by rewrite overlayRow_idemp.
Qed.

(** Overlaying the source of an overlay that returned, on what it returned,
    returns it again. *)
Lemma overlayMatrixSourceWins_again (target a M' : BehaviorMatrixValue) :
  overlayMatrixSourceWins target a = Returns M' →
  overlayMatrixSourceWins M' a = Returns M'.
Proof.
  intros ->%overlayMatrixSourceWins_inv.
  rewrite overlayMatrixSourceWins_Returns;
    [by rewrite overlayMatrixSourceWins_idemp|].
  intros fk src Hsrc. unfold plain.
  rewrite overlayMatrixSourceWins_lookup, Hsrc.
  split; [left; eauto|]. intros st [c Hc]. cbn. left.
  rewrite overlayRow_lookup, Hc. eauto.
Qed.

Lemma ordinaryNames_overlay (a b : BehaviorMatrixValue) :
  ordinaryNames a → ordinaryNames b →
  ordinaryNames (Dict.overlayMatrixSourceWins a b).
Proof.
  rewrite !ordinaryNames_lookup. intros Ha Hb f row.
  rewrite overlayMatrixSourceWins_lookup.
  destruct (b !! f) as [bf|] eqn:Hbf.
  - intros [= <-]. destruct (Hb f bf Hbf) as [Hf Hs].
    split.
    + done.
    + intros s. rewrite overlayRow_lookup.
      destruct (bf !! s) as [c|] eqn:Hc; [intros _; apply Hs; eauto|].
      destruct (a !! f) as [af|] eqn:Haf; cbn.
      * by apply (Ha f af).
      * rewrite lookup_empty. by intros [??].
  - apply Ha.
Qed.

Lemma setCell_inv M fieldKey state patch next :
  setCell M fieldKey state patch = Returns next →
  ∃ row c, M !! fieldKey = Some row
           ∧ next = <[fieldKey := <[state := c]> row]> M.
Proof.
  unfold setCell, member.
  destruct (M !! fieldKey) as [row|]; [|by destruct (inherited fieldKey)].
  destruct (row !! state) as [cur|].
  - intros [= <-]. eauto.
  - destruct (inherited state); [done|].
    destruct (patch_mode patch), (patch_required patch); intros; simplify_eq.
    eauto.
Qed.

(** X14 — editing a cell of the table: on the completed matrix the
    component computes, for a field the extractor yields from the schema and
    a state of the state list, that is, for every cell the matrix component
    renders, [setCell] returns; the cell becomes the patch laid over the
    current cell (a patch of the mode alone keeps [required], a patch of
    [required] alone keeps the mode), and every other cell of the completed
    matrix is handed on unchanged. *)
Theorem setCell_on_rendered_cell
    (components : list Comp) (states : list string) (value sv : BehaviorMatrixValue)
    (fieldKey state : string) (patch : CellPatch) :
  safeValue components states value = Returns sv →
  fieldKey ∈ FieldMeta.key <$> Schema.extractFields components [] →
  state ∈ states →
  ∃ cur next,
    cellAt sv fieldKey state = Some cur
    ∧ setCell sv fieldKey state patch = Returns next
    ∧ cellAt next fieldKey state =
        Some {| mode := default (mode cur) (patch_mode patch);
                required := default (required cur) (patch_required patch) |}
    ∧ ∀ f' s', (f', s') ≠ (fieldKey, state) → cellAt next f' s' = cellAt sv f' s'.
Proof.
  unfold safeValue. intros ->%ensureAllCells_inv Hf Hs.
  set (F := FieldMeta.key <$> Schema.extractFields components []) in *.
  set (M := Dict.ensureAllCells value F states).
  assert (Hcur : cellAt M fieldKey state =
                 Some (default DEFAULT_CELL (cellAt value fieldKey state))).
  { subst M. by rewrite cellAt_ensureAllCells, decide_True. }
  set (cur := default DEFAULT_CELL (cellAt value fieldKey state)) in *.
  unfold cellAt in Hcur. destruct (M !! fieldKey) as [row|] eqn:Hrow; [|done].
  cbn in Hcur.
  exists cur,
    (<[fieldKey := <[state := {| mode := default (mode cur) (patch_mode patch);
                                 required := default (required cur)
                                               (patch_required patch) |}]> row]> M).
  split; [by unfold cellAt; rewrite Hrow|].
  split; [|split].
  - unfold setCell, member. by rewrite Hrow, Hcur.
  - by rewrite (cellAt_insert_row M _ row), decide_True.
  - intros f' s' Hne.
    assert (Hne' : ¬ (f' = fieldKey ∧ s' = state)) by (intros [-> ->]; done).
    by rewrite (cellAt_insert_row M _ row), decide_False.
Qed.

(** X15 — when [setCell] throws: for a field key and a state that are not
    names of members of [Object.prototype], on an arbitrary matrix [setCell]
    either returns or throws a [TypeError]; it throws exactly when the field
    has no row, or the row has no cell for the state and the patch leaves the
    mode or the required flag out; when it returns, every cell but the
    addressed one is unchanged. *)
Theorem setCell_fails_iff
    (M : BehaviorMatrixValue) (fieldKey state : string) (patch : CellPatch) :
  ordinary fieldKey →
  ordinary state →
  (setCell M fieldKey state patch = Throws ↔
     M !! fieldKey = None
     ∨ (cellAt M fieldKey state = None
        ∧ (patch_mode patch = None ∨ patch_required patch = None)))
  ∧ (setCell M fieldKey state patch = Throws
     ∨ ∃ next, setCell M fieldKey state patch = Returns next)
  ∧ ∀ next, setCell M fieldKey state patch = Returns next →
      ∀ f' s', (f', s') ≠ (fieldKey, state) → cellAt next f' s' = cellAt M f' s'.
Proof.
  intros Hf%ordinary_inherited Hs%ordinary_inherited.
  split; [|split].
  - unfold setCell, member, cellAt. rewrite Hf, Hs.
    destruct (M !! fieldKey) as [row|] eqn:Hrow; cbn.
    + destruct (patch_mode patch), (patch_required patch), (row !! state);
        cbn; (split;
          [ intros H; try done; right; (split; [done|]); (by left) || (by right)
          | intros [?|[? [?|?]]]; done ]).
    + by split; [left|].
  - unfold setCell, member. rewrite Hf, Hs.
    destruct (M !! fieldKey) as [row|]; [|by left].
    destruct (row !! state); [right; eauto|].
    destruct (patch_mode patch), (patch_required patch); eauto.
  - intros next (row & c & Hrow & ->)%setCell_inv f' s' Hne.
    assert (Hne' : ¬ (f' = fieldKey ∧ s' = state)) by (intros [-> ->]; done).
    by rewrite (cellAt_insert_row M _ row), decide_False.
Qed.

(** X16 — loading a server matrix: the loader's overlay and completion run
    among own properties and return a matrix when no field key and no state
    of the server matrix, no listed field key and no listed state is the name
    of a member of [Object.prototype]; in the matrix they return, a cell is
    the server's when the server matrix has one, otherwise the local one when
    the local matrix has one, otherwise the default cell when its field key
    and state are listed, and otherwise absent. *)
Theorem loadedMatrix_precedence
    (before serverMatrix : BehaviorMatrixValue) (fieldKeys states : list string) :
  (ordinaryNames serverMatrix → Forall ordinary fieldKeys → Forall ordinary states →
   ∃ M', loadedMatrix before serverMatrix fieldKeys states = Returns M')
  ∧ ∀ M', loadedMatrix before serverMatrix fieldKeys states = Returns M' →
      ∀ f s,
        cellAt M' f s =
        match cellAt serverMatrix f s with
        | Some c => Some c
        | None =>
            match cellAt before f s with
            | Some c => Some c
            | None => if bool_decide (f ∈ fieldKeys ∧ s ∈ states)
                      then Some DEFAULT_CELL else None
            end
        end.
Proof.
  unfold loadedMatrix. split.
  - intros Hsrv HF HS. rewrite overlayMatrixSourceWins_ordinary by done. cbn.
    rewrite ensureAllCells_ordinary by done. eauto.
  - intros M' HM' f s.
    destruct (overlayMatrixSourceWins before serverMatrix) as [ov| |] eqn:Hov;
      [|done..].
    cbn in HM'. apply overlayMatrixSourceWins_inv in Hov as ->.
    apply ensureAllCells_inv in HM' as ->.
    rewrite cellAt_ensureAllCells, cellAt_overlayMatrixSourceWins.
    destruct (cellAt serverMatrix f s), (cellAt before f s);
      by repeat (case_decide || case_bool_decide).
Qed.

(** X17 — overlays compose: for sources whose field keys and states are not
    names of members of [Object.prototype], overlaying two sources one after
    the other returns what overlaying their own overlay returns (the later
    source winning); overlaying the same source again on what an overlay
    returned returns it unchanged, and an overlay that does not return does
    not return either when followed by the same overlay; overlaying an empty
    source returns the target. *)
Theorem overlayMatrixSourceWins_composes
    (target a b : BehaviorMatrixValue) :
  (ordinaryNames a → ordinaryNames b →
   ∃ ab, overlayMatrixSourceWins a b = Returns ab
     ∧ overlayMatrixSourceWins target a ≫= (λ x, overlayMatrixSourceWins x b) =
       overlayMatrixSourceWins target ab
     ∧ ∃ M', overlayMatrixSourceWins target ab = Returns M')
  ∧ overlayMatrixSourceWins target a ≫= (λ x, overlayMatrixSourceWins x a) =
      overlayMatrixSourceWins target a
  ∧ overlayMatrixSourceWins target ∅ = Returns target.
Proof.
  split; [|split].
  - intros Ha Hb. exists (Dict.overlayMatrixSourceWins a b).
    pose proof (ordinaryNames_overlay a b Ha Hb) as Hab.
    rewrite !overlayMatrixSourceWins_ordinary by done. cbn.
    rewrite overlayMatrixSourceWins_ordinary by done.
    rewrite overlayMatrixSourceWins_assoc. eauto.
  - destruct (overlayMatrixSourceWins target a) as [x| |] eqn:Hx; [|done..].
    cbn. by apply overlayMatrixSourceWins_again in Hx.
  - unfold overlayMatrixSourceWins. by rewrite map_to_list_empty.
Qed.

End editor_props.

Lemma setCell_on_rendered_cell_witness :
  ∃ cur next,
    cellAt {[ "a" := {[ "entry" := Matrix.DEFAULT_CELL ]} ]} "a" "entry" = Some cur
    ∧ MatrixEditor.setCell {[ "a" := {[ "entry" := Matrix.DEFAULT_CELL ]} ]}
        "a" "entry" (mkPatch (Some editable) None) = Returns next
    ∧ cellAt next "a" "entry" =
        Some {| mode := default (mode cur) (Some editable);
                required := default (required cur) None |}
    ∧ ∀ f' s', (f', s') ≠ ("a", "entry") →
        cellAt next f' s' =
        cellAt {[ "a" := {[ "entry" := Matrix.DEFAULT_CELL ]} ]} f' s'.
Proof.
  apply (setCell_on_rendered_cell Examples.textThenGroup ["entry"] ∅
           {[ "a" := {[ "entry" := Matrix.DEFAULT_CELL ]} ]}
           "a" "entry" (mkPatch (Some editable) None)).
  - vm_compute. reflexivity.
  - vm_compute. apply list_elem_of_here.
  - apply list_elem_of_here.
Defined.

Lemma setCell_fails_iff_witness :
  MatrixEditor.setCell Examples.loaded "age" "entry" (mkPatch (Some editable) None)
    = Throws
  ∧ MatrixEditor.setCell Examples.loaded "name" "archive" (mkPatch (Some editable) None)
    = Throws
  ∧ ∃ next, MatrixEditor.setCell Examples.loaded "name" "entry"
              (mkPatch (Some editable) None) = Returns next.
Proof.
  assert (Hage : ordinary "age") by (apply (bool_decide_unpack _); vm_compute; exact I).
  assert (Hname : ordinary "name") by (apply (bool_decide_unpack _); vm_compute; exact I).
  assert (Hentry : ordinary "entry") by (apply (bool_decide_unpack _); vm_compute; exact I).
  assert (Harch : ordinary "archive") by (apply (bool_decide_unpack _); vm_compute; exact I).
  split; [|split].
  - apply (proj1 (setCell_fails_iff Examples.loaded "age" "entry"
                    (mkPatch (Some editable) None) Hage Hentry)).
    left. vm_compute. reflexivity.
  - apply (proj1 (setCell_fails_iff Examples.loaded "name" "archive"
                    (mkPatch (Some editable) None) Hname Harch)).
    right. split; [vm_compute; reflexivity|]. right. reflexivity.
  - destruct (proj1 (proj2 (setCell_fails_iff Examples.loaded "name" "entry"
                              (mkPatch (Some editable) None) Hname Hentry)))
      as [Hthrows|Hret]; [|exact Hret].
    vm_compute in Hthrows. discriminate Hthrows.
Defined.

Lemma loadedMatrix_precedence_witness :
  ∃ M', MatrixEditor.loadedMatrix Examples.edited Examples.loaded ["name"] ["entry"; "approve"]
          = Returns M'
    ∧ cellAt M' "name" "entry" = Some (mkCell readonly false)
    ∧ cellAt M' "legacy" "archived" = Some (mkCell readonly false)
    ∧ cellAt M' "legacy" "entry" = None.
Proof.
  destruct (loadedMatrix_precedence Examples.edited Examples.loaded
              ["name"] ["entry"; "approve"]) as [Hret Hcells].
  destruct Hret as [M' HM'].
  - apply (bool_decide_unpack _). vm_compute. exact I.
  - apply (bool_decide_unpack _). vm_compute. exact I.
  - apply (bool_decide_unpack _). vm_compute. exact I.
  - exists M'. split; [exact HM'|].
    rewrite !(Hcells M' HM'). vm_compute. auto.
Defined.

Lemma overlayMatrixSourceWins_composes_witness :
  ∃ ab, Matrix.overlayMatrixSourceWins Examples.edited Examples.loaded = Returns ab
    ∧ Matrix.overlayMatrixSourceWins ∅ Examples.edited
        ≫= (λ x, Matrix.overlayMatrixSourceWins x Examples.loaded)
      = Matrix.overlayMatrixSourceWins ∅ ab.
Proof.
  destruct (proj1 (overlayMatrixSourceWins_composes ∅ Examples.edited Examples.loaded))
    as (ab & Hab & Heq & _).
  - apply (bool_decide_unpack _). vm_compute. exact I.
  - apply (bool_decide_unpack _). vm_compute. exact I.
  - exists ab. split; [exact Hab|exact Heq].
Defined.

(** * Joining the API base and a path *)

Section join_props.
Import FormsCrud.

Lemma app_String a (s t : string) : String a s +:+ t = String a (s +:+ t).
Proof. done. Qed.

Lemma stripTrailingSlashes_slash s :
  stripTrailingSlashes (s +:+ "/") = stripTrailingSlashes s.
Proof.
  induction s as [|a s IH]; [done|].
  rewrite app_String. cbn [stripTrailingSlashes]. by rewrite IH.
Qed.

Lemma stripTrailingSlashes_no_slash s t :
  stripTrailingSlashes s ≠ t +:+ "/".
Proof.
  revert t. induction s as [|a s IH]; intros t.
  - by destruct t.
  - cbn [stripTrailingSlashes].
    destruct (stripTrailingSlashes s) as [|b u] eqn:Hs.
    + destruct (Ascii.eqb a SLASH) eqn:Ha; [by destruct t|].
      destruct t as [|c [|??]]; try done.
      intros [= ->]. by rewrite Ascii.eqb_refl in Ha.
    + destruct t as [|c t]; [by destruct u|].
      rewrite app_String. intros [= -> Hu]. by eapply IH.
Qed.

Lemma stripLeadingSlashes_no_slash s t :
  stripLeadingSlashes s ≠ "/" +:+ t.
Proof.
  induction s as [|a s IH]; [done|]. cbn [stripLeadingSlashes].
  destruct (Ascii.eqb a SLASH) eqn:Ha; [done|].
  intros [= -> _]. by rewrite Ascii.eqb_refl in Ha.
Qed.

Lemma stripTrailingSlashes_decompose s :
  ∃ n, s = stripTrailingSlashes s +:+ slashes n.
Proof.
  induction s as [|a s [n IH]]; [by exists 0|].
  cbn [stripTrailingSlashes].
  destruct (stripTrailingSlashes s) as [|b u] eqn:Hs.
  - destruct (Ascii.eqb a SLASH) eqn:Ha.
    + apply Ascii.eqb_eq in Ha as ->. exists (S n). cbn. by rewrite IH at 1.
    + exists n. by rewrite IH at 1.
  - exists n. by rewrite IH at 1.
Qed.

Lemma stripLeadingSlashes_decompose s :
  ∃ n, s = slashes n +:+ stripLeadingSlashes s.
Proof.
  induction s as [|a s [n IH]]; [by exists 0|].
  cbn [stripLeadingSlashes]. destruct (Ascii.eqb a SLASH) eqn:Ha.
  - apply Ascii.eqb_eq in Ha as ->. exists (S n). cbn [slashes].
    by rewrite app_String, <- IH.
  - by exists 0.
Qed.

(** X18 — joining a base and a path: [join] puts exactly one slash
    between the base without its trailing slashes and the path without its
    leading slashes, each of which differs from the argument only by the
    slashes dropped; so a further slash at the end of the base or at the front
    of the path does not change the result. *)
Theorem join_single_slash (base path : string) :
  (∃ b p n m,
     join base path = b +:+ "/" +:+ p
     ∧ base = b +:+ slashes n ∧ path = slashes m +:+ p
     ∧ (∀ t, b ≠ t +:+ "/") ∧ (∀ t, p ≠ "/" +:+ t))
  ∧ join (base +:+ "/") path = join base path
  ∧ join base ("/" +:+ path) = join base path.
Proof.
  split; [|split].
  - destruct (stripTrailingSlashes_decompose base) as [n Hn].
    destruct (stripLeadingSlashes_decompose path) as [m Hm].
    exists (stripTrailingSlashes base), (stripLeadingSlashes path), n, m.
    repeat split; [done..| |].
    + intros t. apply stripTrailingSlashes_no_slash.
    + intros t. apply stripLeadingSlashes_no_slash.
  - unfold join. by rewrite stripTrailingSlashes_slash.
  - done.
Qed.

End join_props.

Example join_samples :
  FormsCrud.join "http://localhost:8000/" "/form_definition/" =
    "http://localhost:8000/form_definition/"
  ∧ FormsCrud.join "/api//" "meta" = "/api/meta"
  ∧ FormsCrud.join "" "" = "/".
Proof. by vm_compute. Qed.

(** * Completion and the derived flags *)

Section completion_effects.
Import Matrix MatrixEditor.



(** X20 — the first edit makes the unset cells explicit: when [setCell]
    returns on the completed matrix the component computes, every other
    rendered cell (a field of the schema at a listed state) that the stored
    matrix did not have is, in the matrix handed to [onChange], the hidden
    default cell; the enricher then drops the nodes of such a field for such
    a state. *)
Theorem setCell_makes_unset_cells_hidden
    (components : list Comp) (states : list string)
    (value sv next : BehaviorMatrixValue)
    (fieldKey state : string) (patch : CellPatch) (f' s' : string) :
  safeValue components states value = Returns sv →
  setCell sv fieldKey state patch = Returns next →
  f' ∈ FieldMeta.key <$> Schema.extractFields components [] →
  s' ∈ states →
  (f', s') ≠ (fieldKey, state) →
  cellAt value f' s' = None →
  cellAt next f' s' = Some {| mode := hidden; required := false |}
  ∧ ∀ b, b ∈ Codec.bundlesFromMatrix next [s'] →
         Enrich.rulesOf (rows b) !! f' = Some {| mode := hidden; required := false |}.
Proof.
  unfold safeValue.
  intros ->%ensureAllCells_inv (row & c & Hrow & ->)%setCell_inv Hf Hs Hne Hnone.
  assert (Hcell : cellAt (<[fieldKey := <[state := c]> row]>
                            (Dict.ensureAllCells value
                               (FieldMeta.key <$> Schema.extractFields components [])
                               states)) f' s' = Some DEFAULT_CELL).
  { rewrite (cellAt_insert_row _ _ row) by done.
    rewrite decide_False by (intros [-> ->]; done).
    by rewrite cellAt_ensureAllCells, decide_True, Hnone. }
  split; [done|].
  intros b Hb.
  rewrite bundlesFromMatrix_fmap in Hb.
  apply list_elem_of_fmap in Hb as (s & -> & Hs'%list_elem_of_singleton).
  subst s. by rewrite (rulesOf_bundleOfState _ _ _ _ Hcell).
Qed.

End completion_effects.

Example App_readOnly_of_completed :
  Matrix.ensureAllCells Examples.edited ["age"] ["entry"]
    ≫= (λ M', Returns (App.readOnly M' "entry", cellAt M' "age" "entry"))
  = Returns (false, Some Matrix.DEFAULT_CELL).
Proof. by vm_compute. Qed.

Lemma setCell_makes_unset_cells_hidden_witness :
  cellAt (<[ "a" := {[ "entry" := mkCell editable false;
                       "approve" := mkCell hidden false ]} ]> ∅) "a" "approve"
    = Some {| mode := hidden; required := false |}
  ∧ ∀ b, b ∈ Codec.bundlesFromMatrix
               (<[ "a" := {[ "entry" := mkCell editable false;
                             "approve" := mkCell hidden false ]} ]> ∅) ["approve"] →
         Enrich.rulesOf (rows b) !! "a" = Some {| mode := hidden; required := false |}.
Proof.
  apply (setCell_makes_unset_cells_hidden Examples.textThenGroup
           ["entry"; "approve"] ∅
           {[ "a" := {[ "entry" := mkCell hidden false;
                        "approve" := mkCell hidden false ]} ]}
           _ "a" "entry" (mkPatch (Some editable) None)).
  - vm_compute. reflexivity.
  - vm_compute. reflexivity.
  - vm_compute. apply list_elem_of_here.
  - apply list_elem_of_further, list_elem_of_here.
  - discriminate.
  - reflexivity.
Defined.

(** * The earlier codec *)

Section legacy_props.
Import Legacy.

Lemma legacy_bundlesFromMatrix_fmap (M : BehaviorMatrixValue) (S : list string) :
  bundlesFromMatrix M S = bundleOfState M <$> S.
Proof. unfold bundlesFromMatrix. by rewrite foldl_push_map. Qed.

Lemma legacy_putRow_Returns b m row :
  ordinary (field_name row) → state b ≠ "__proto__" →
  putRow b m row = Returns (Dict.legacyPutRow b m row).
Proof.
  intros Hf Hst. unfold putRow, Dict.legacyPutRow. cbn zeta.
  rewrite member_plain by by right.
  destruct (m !! field_name row) as [r|]; cbn;
    by rewrite assign_Returns by by right.
Qed.

Lemma legacy_matrixFromBundles_Returns bundles :
  (∀ b r, b ∈ bundles → r ∈ rows b →
          ordinary (field_name r) ∧ state b ≠ "__proto__") →
  matrixFromBundles bundles = Returns (Dict.legacyMatrixFromBundles bundles).
Proof.
  intros Hok. unfold matrixFromBundles, Dict.legacyMatrixFromBundles.
  apply forEach_Returns. intros m b Hb.
  apply forEach_Returns. intros m' r Hr.
  destruct (Hok b r) as [Hf Hst]; [done..|].
  by apply legacy_putRow_Returns.
Qed.

Lemma legacy_cellAt_putRow b (m : BehaviorMatrixValue) row f s :
  cellAt (Dict.legacyPutRow b m row) f s =
  if decide (field_name row = f ∧ state b = s)
  then Some (cellOfRow b row) else cellAt m f s.
Proof.
  unfold cellAt, Dict.legacyPutRow.
  destruct (decide (field_name row = f)) as [<-|Hf].
  - rewrite lookup_insert_eq. cbn [mbind option_bind].
    destruct (decide (state b = s)) as [<-|Hs].
    + rewrite lookup_insert_eq. by rewrite decide_True.
    + rewrite lookup_insert_ne by done. rewrite decide_False by tauto.
      by destruct (m !! field_name row).
  - rewrite lookup_insert_ne by done. by rewrite decide_False by tauto.
Qed.

(** When every row of a bundle list that addresses a pair denotes the same
    cell, the decoded matrix holds that cell at the pair when some row
    addresses it, and what the start matrix held otherwise. *)
Lemma legacy_cellAt_rows b (rs : list TaskFieldBehavior)
    (m : BehaviorMatrixValue) f s c :
  (∀ r, r ∈ rs → field_name r = f → state b = s → cellOfRow b r = c) →
  ((∃ r, r ∈ rs ∧ field_name r = f ∧ state b = s)
   ∧ cellAt (foldl (Dict.legacyPutRow b) m rs) f s = Some c)
  ∨ ((∀ r, r ∈ rs → ¬ (field_name r = f ∧ state b = s))
     ∧ cellAt (foldl (Dict.legacyPutRow b) m rs) f s = cellAt m f s).
Proof.
  induction rs as [|r rs IH] using rev_ind; intros Hc.
  - right. split; [|done]. by intros r ?%not_elem_of_nil.
  - rewrite foldl_app. cbn [foldl]. rewrite legacy_cellAt_putRow.
    destruct (decide (field_name r = f ∧ state b = s)) as [[Hf Hs]|Hr].
    + left. split.
      * exists r. split; [|done]. apply elem_of_app. right. by left.
      * f_equal. apply Hc; [|done..]. apply elem_of_app. right. by left.
    + assert (Hc' : ∀ r, r ∈ rs → field_name r = f → state b = s →
                          cellOfRow b r = c).
      { intros r' ?. apply Hc, elem_of_app. by left. }
      destruct (IH Hc') as [[(r' & ? & ?) ->]|[Hno ->]].
      * left. split; [|done]. exists r'. split; [|done].
        apply elem_of_app. by left.
      * right. split; [|done]. intros r' [?|Hr']%elem_of_app; [by apply Hno|].
        by apply list_elem_of_singleton in Hr' as ->.
Qed.

Lemma legacy_cellAt_foldl (bundles : list BehaviorBundle)
    (m : BehaviorMatrixValue) f s c :
  (∀ b r, b ∈ bundles → r ∈ rows b → field_name r = f → state b = s →
          cellOfRow b r = c) →
  ((∃ b r, b ∈ bundles ∧ r ∈ rows b ∧ field_name r = f ∧ state b = s)
   ∧ cellAt (foldl (λ out b, foldl (Dict.legacyPutRow b) out (rows b)) m bundles) f s
     = Some c)
  ∨ ((∀ b r, b ∈ bundles → r ∈ rows b → ¬ (field_name r = f ∧ state b = s))
     ∧ cellAt (foldl (λ out b, foldl (Dict.legacyPutRow b) out (rows b)) m bundles) f s
       = cellAt m f s).
Proof.
  induction bundles as [|b bundles IH] using rev_ind; intros Hc.
  - right. split; [|done]. by intros b r ?%not_elem_of_nil.
  - rewrite foldl_app. cbn [foldl].
    assert (Hcb : ∀ r, r ∈ rows b → field_name r = f → state b = s →
                       cellOfRow b r = c).
    { intros r ?. apply Hc; [|done]. apply elem_of_app. right. by left. }
    destruct (legacy_cellAt_rows b (rows b)
                (foldl (λ out b, foldl (Dict.legacyPutRow b) out (rows b)) m bundles)
                f s c Hcb)
      as [[(r & ? & ?) ->]|[Hno ->]].
    + left. split; [|done]. exists b, r. split; [|done].
      apply elem_of_app. right. by left.
    + assert (Hc' : ∀ b r, b ∈ bundles → r ∈ rows b → field_name r = f →
                            state b = s → cellOfRow b r = c).
      { intros b' r ?. apply Hc. apply elem_of_app. by left. }
      destruct (IH Hc') as [[(b' & r & ? & ?) ->]|[Hno' ->]].
      * left. split; [|done]. exists b', r. split; [|done].
        apply elem_of_app. by left.
      * right. split; [|done].
        intros b' r [?|Hb']%elem_of_app; [by apply Hno'|].
        apply list_elem_of_singleton in Hb' as ->. apply Hno.
Qed.

(** The row of the earlier encoder for a state no object inherits a member
    under. *)
Lemma rowOfField_ordinary action s (e : string * StateRow) :
  ordinary s →
  rowOfField action s e =
  let cell := default {| mode := hidden; required := false |} (e.2 !! s) in
  {| field_name := e.1; action_context := action;
     visible := Some (bool_decide (mode cell ≠ hidden));
     row_required := Some (required cell) |}.
Proof.
  intros Hs. unfold rowOfField. rewrite member_plain by by right.
  by destruct (e.2 !! s).
Qed.

(** X21 — the round trip of the earlier codec: for a matrix whose field
    keys, and a state list whose states, are not names of members of
    [Object.prototype], it returns a matrix; it is dense and keeps hiddenness
    and the [required] flag, but not the mode: decoding the bundles encoded
    for [S] gives, for every field of the matrix and every state of [S] (and
    nowhere else), a cell that is hidden when the original cell is hidden or
    missing, and otherwise editable when the state is ["entry"] or some field
    is editable in that state, and readonly when not; [required] is the
    original flag, [false] for a missing cell. *)
Theorem legacy_codec_roundtrip (M : BehaviorMatrixValue) (S : list string) :
  Forall ordinary (keys M) →
  Forall ordinary S →
  ∃ RT, matrixFromBundles (bundlesFromMatrix M S) = Returns RT
    ∧ ∀ f s,
        cellAt RT f s =
        if bool_decide (s ∈ S) then
          match M !! f with
          | Some row =>
              let cell := default {| mode := hidden; required := false |} (row !! s) in
              Some {| mode :=
                        if bool_decide (mode cell = hidden) then hidden
                        else if bool_decide (s = "entry")
                                || existsb (editableAt s) (map_to_list M).*2
                             then editable else readonly;
                      required := required cell |}
          | None => None
          end
        else None.
Proof.
  intros HM HS. pose proof (keys_ordinary _ HM) as HM'.
  rewrite Forall_forall in HS.
  eexists. split.
  { apply legacy_matrixFromBundles_Returns. intros b r Hb Hr.
    rewrite legacy_bundlesFromMatrix_fmap in Hb.
    apply list_elem_of_fmap in Hb as (s' & -> & Hs'). cbn in Hr |- *.
    split; [|by apply ordinary_not_proto, HS].
    apply list_elem_of_fmap in Hr as ([f' row] & -> & Hin%elem_of_map_to_list).
    rewrite rowOfField_ordinary by by apply HS. cbn. apply HM'. eauto. }
  intros f s.
  unfold Dict.legacyMatrixFromBundles.
  rewrite legacy_bundlesFromMatrix_fmap, existsb_fmap.
  change (editableAt s ∘ snd) with (λ e : string * StateRow, editableAt s e.2).
  set (cell := default {| mode := hidden; required := false |}
                       (default ∅ (M !! f) !! s)).
  set (c := {| mode :=
                 if bool_decide (mode cell = hidden) then hidden
                 else if bool_decide (s = "entry")
                         || existsb (λ e, editableAt s e.2) (map_to_list M)
                      then editable else readonly;
               required := required cell |}).
  assert (Hiff : (∃ b r, b ∈ bundleOfState M <$> S ∧ r ∈ rows b
                         ∧ field_name r = f ∧ state b = s)
                 ↔ s ∈ S ∧ is_Some (M !! f)).
  { split.
    - intros (b & r & (s' & -> & Hs')%list_elem_of_fmap & Hr & Hf & Hs).
      cbn in Hs. subst s'. split; [done|]. cbn in Hr.
      apply list_elem_of_fmap in Hr as ([f' row] & -> & Hin%elem_of_map_to_list).
      rewrite rowOfField_ordinary in Hf by by apply HS.
      cbn in Hf. subst f'. eauto.
    - intros [Hs [row Hrow]]. exists (bundleOfState M s). eexists.
      split; [by apply list_elem_of_fmap_2|]. split.
      + cbn. apply (list_elem_of_fmap_2 _ _ (f, row)).
        by apply elem_of_map_to_list.
      + rewrite rowOfField_ordinary by by apply HS. done. }
  assert (Hc : ∀ b r, b ∈ bundleOfState M <$> S → r ∈ rows b →
                      field_name r = f → state b = s → cellOfRow b r = c).
  { intros b r (s' & -> & Hs')%list_elem_of_fmap Hr Hf Hs.
    cbn in Hs. subst s'. cbn in Hr.
    apply list_elem_of_fmap in Hr as ([f' row] & -> & Hin%elem_of_map_to_list).
    rewrite rowOfField_ordinary in Hf |- * by by apply HS.
    cbn in Hf. subst f'. subst c cell. rewrite Hin.
    unfold cellOfRow. cbn.
    set (cell := default {| mode := hidden; required := false |} (row !! s)).
    f_equal.
    destruct (decide (mode cell = hidden)) as [Hh|Hh].
    + rewrite (bool_decide_eq_true_2 (mode cell = hidden)) by done.
      rewrite bool_decide_eq_true_2; [done|].
      f_equal. by apply bool_decide_eq_false_2; intros ?.
    + rewrite (bool_decide_eq_false_2 (mode cell = hidden)) by done.
      rewrite (bool_decide_eq_false_2 (Some _ = Some false)).
      2:{ intros [= Hb]. by apply bool_decide_eq_false in Hb. }
      destruct (bool_decide (s = "entry")); [done|]. cbn.
      by destruct (existsb _ _). }
  destruct (legacy_cellAt_foldl (bundleOfState M <$> S) ∅ f s c Hc)
    as [[[Hs [row Hrow]]%Hiff ->]|[Hno ->]].
  - rewrite bool_decide_eq_true_2 by done. subst c cell. by rewrite Hrow.
  - unfold cellAt. rewrite lookup_empty. cbn.
    case_bool_decide as Hs; [|done].
    destruct (M !! f) as [row|] eqn:Hrow; [|done]. exfalso.
    destruct (proj2 Hiff) as (b & r & ? & ? & ? & ?); [eauto|].
    by eapply Hno.
Qed.

End legacy_props.

Lemma legacy_codec_roundtrip_witness :
  ∃ RT, Legacy.matrixFromBundles
          (Legacy.bundlesFromMatrix Examples.loaded ["entry"; "approve"]) = Returns RT
    ∧ cellAt RT "name" "entry" = Some (mkCell editable false)
    ∧ cellAt RT "name" "approve" = Some (mkCell hidden false).
Proof.
  destruct (legacy_codec_roundtrip Examples.loaded ["entry"; "approve"])
    as (RT & HRT & Hcells).
  - apply (bool_decide_unpack _). vm_compute. exact I.
  - apply (bool_decide_unpack _). vm_compute. exact I.
  - exists RT. split; [exact HRT|].
    rewrite !Hcells. vm_compute. auto.
Defined.

Example legacy_roundtrip_promotes_readonly :
  (Legacy.matrixFromBundles
     (Legacy.bundlesFromMatrix Examples.loaded ["entry"; "approve"])
     ≫= λ m, Returns (cellAt m "name" "entry"))
  = Returns (Some (mkCell editable false))
  ∧ (Codec.matrixFromBundles
       (Codec.bundlesFromMatrix Examples.loaded ["entry"; "approve"])
       ≫= λ m, Returns (cellAt m "name" "entry"))
    = Returns (Some (mkCell readonly false)).
Proof. by vm_compute. Qed.

(** A state named after a member of [Object.prototype] makes the earlier
    encoder report every field without an own cell for it as visible. *)
Example legacy_inherited_state :
  rows (Legacy.bundleOfState Examples.loaded "toString") =
  [ mkRow "name" view (Some true) (Some false) ].
Proof. by vm_compute. Qed.

Example App_readOnly_empty_matrix :
  App.readOnly ∅ "entry" = true ∧ App.readOnly Examples.edited "entry" = false.
Proof. by vm_compute. Qed.

(** [trim] strips the white space of Unicode, a no-break space (U+00A0, the
    bytes 194 160) included. *)
Example trim_no_break_space :
  Schema.trim (String (Ascii.ascii_of_nat 194) (String (Ascii.ascii_of_nat 160) "a ")) = "a".
Proof. by vm_compute. Qed.
